(** * ott.tools.plot: a shallow embedding and its verified properties

    The module under study ([src/ott/tools/plot.py]) turns a solved optimal
    transport problem into matplotlib primitives.  The embedding follows the
    Python text function by function and keeps its names.

    Modelling conventions
    - Array entries are exact rationals ([Q]).  Rounding, infinities and NaN
      of the float arrays are outside that model; a statement over [Q] is
      about the arithmetic expression the code evaluates.  [Q] division by
      zero yields [0]; no theorem below relies on that value.
    - Where NaN and overflow decide the matter, the range of the alphas
      after the final clip, the alpha computation of [_mapping] is embedded
      a second time over IEEE 754 values ([spec_float]).
    - A 2-D array is its list of rows together with its second dimension
      ([shape1]), so that an array with no rows still has a column count.
    - Python exceptions are values of [exn]; a computation that may raise
      returns a [result].
    - The matplotlib axes are an explicit store of artists; an artist handle
      is its position in the store.  Methods of [Plot] thread the object
      (with its axes) through a state-and-exception monad. *)

From Stdlib Require Import String QArith Qminmax ZArith Arith List Sorted Bool Lia.
From Stdlib Require Import SpecFloat.
Import ListNotations.

Local Open Scope Q_scope.

(** ** Exceptions and results *)

Inductive exn : Type :=
| ValueError (msg : string)
| TypeError (msg : string)
| AttributeError (msg : string)
| RuntimeError (msg : string)
| ArpackError (msg : string).

(** The two errors the claims are about: the one [jnp.min] raises on an
    empty array and the one [_scatter] raises on a geometry that is not a
    point cloud. *)
Definition zero_size_min : exn :=
  ValueError "zero-size array to reduction operation min which has no identity".

Definition geometry_kind_error : exn :=
  ValueError "So far we only plot PointCloud geometry.".

Inductive result (A : Type) : Type :=
| Ok (a : A)
| Raise (e : exn).

Arguments Ok {A} a.
Arguments Raise {A} e.

Definition rbind {A B : Type} (r : result A) (k : A -> result B) : result B :=
  match r with
  | Ok a => k a
  | Raise e => Raise e
  end.

Declare Scope result_scope.
Delimit Scope result_scope with result.

Notation "x <- r ;; k" := (rbind r (fun x => k))
  (at level 61, r at next level, right associativity) : result_scope.

(** ** Arrays *)

Record ndarray : Type := mk_ndarray {
  shape1 : nat;
  rows : list (list Q)
}.

Definition shape0 (m : ndarray) : nat := length (rows m).

(** Every row has [shape1] entries. *)
Definition well_shaped (m : ndarray) : Prop :=
  Forall (fun r => length r = shape1 m) (rows m).

(** [l[i]] the way a JAX gather reads it: an index past the end is clamped to
    the last position.  (Indices produced by [jnp.where] are never negative.) *)
Definition getitem {A : Type} (d : A) (l : list A) (i : nat) : A :=
  nth (Nat.min i (Nat.pred (length l))) l d.

Definition getrow (m : ndarray) (i : nat) : list Q := getitem [] (rows m) i.

Definition getitem2 (m : ndarray) (ij : nat * nat) : Q :=
  getitem 0 (getrow m (fst ij)) (snd ij).

(** [x[u]] for an index vector [u]. *)
Definition take (m : ndarray) (u : list nat) : list (list Q) :=
  map (getrow m) u.

Definition enumerate {A : Type} (l : list A) : list (nat * A) :=
  combine (seq 0 (length l)) l.

(** [matrix > t], entrywise. *)
Definition Qgtb (v t : Q) : bool :=
  match t ?= v with
  | Lt => true
  | _ => false
  end.

(** [jnp.where(matrix > t)]: the index pairs of the entries above [t], in
    row-major order.  The source unpacks them into the two index vectors
    [u] and [v]. *)
Definition where_gt (matrix : ndarray) (t : Q) : list (nat * nat) :=
  flat_map
    (fun ir => map (fun jv => (fst ir, fst jv))
                   (filter (fun jv => Qgtb (snd jv) t) (enumerate (snd ir))))
    (enumerate (rows matrix)).

(** [jnp.concatenate([p, q], axis=-1)] on two stacks of rows of equal
    length. *)
Definition concatenate_last (p q : list (list Q)) : list (list Q) :=
  map (fun pq => fst pq ++ snd pq) (combine p q).

(** [jnp.min] and [jnp.max] of a vector: a reduction without identity, which
    raises on a zero-size array. *)
Definition jnp_min (c : list Q) : result Q :=
  match c with
  | [] => Raise zero_size_min
  | h :: t => Ok (fold_left Qmin t h)
  end.

Definition jnp_max (c : list Q) : result Q :=
  match c with
  | [] => Raise (ValueError
            "zero-size array to reduction operation max which has no identity")
  | h :: t => Ok (fold_left Qmax t h)
  end.

(** [np.clip(a, lo, hi)], that is [minimum(maximum(a, lo), hi)]. *)
Definition np_clip (a lo hi : Q) : Q := Qmin (Qmax a lo) hi.

Definition Q_of_nat (n : nat) : Q := inject_Z (Z.of_nat n).

(** ** The plotting surface *)

Definition rgba : Type := (Q * Q * Q * Q)%type.

Inductive artist : Type :=
| PathCollection (offsets : list (list Q)) (s : list Q)
                 (edgecolors marker label : string)
| Line2D (xdata ydata : Q * Q) (linewidth : Q) (color : rgba)
         (zorder : Z) (alpha : Q).

Definition handle : Type := nat.

Record Axes : Type := mk_Axes {
  artists : list artist;
  legend_fontsize : option Q
}.

Definition empty_axes : Axes := mk_Axes [] None.

(** ** The [Plot] object *)

Record Plot : Type := mk_Plot {
  ax : Axes;
  _show_lines : bool;
  _lines : list handle;
  _points_x : option handle;
  _points_y : option handle;
  _threshold : Q;
  _scale : Q;
  _cmap : string;
  _scale_alpha_by_coupling : bool;
  _alpha : Q
}.

(** One element of the list [_mapping] returns.  [start] and [end_] carry the
    names of the source's local variables. *)
Record edge : Type := mk_edge {
  start : Q * Q;
  end_ : Q * Q;
  strength : Q;
  alpha : Q
}.

(** The body of the [for] loop of [_mapping] at position [i]. *)
Definition mapping_step (self : Plot) (matrix : ndarray)
    (xy : list (list Q)) (c : list Q)
    (scale_alpha_by_coupling : bool) (min_matrix max_matrix : Q)
    (i : nat) : edge :=
  let strength :=
    Q_of_nat (Nat.max (shape0 matrix) (shape1 matrix)) * getitem 0 c i in
  let alpha :=
    if scale_alpha_by_coupling then
      let normalized_strength :=
        (getitem 0 c i - min_matrix) / (max_matrix - min_matrix) in
      _alpha self * normalized_strength
    else _alpha self in
  let alpha := np_clip alpha 0 1 in
  let xy_i := getitem [] xy i in
  mk_edge (getitem 0 xy_i 0%nat, getitem 0 xy_i 2%nat)
          (getitem 0 xy_i 1%nat, getitem 0 xy_i 3%nat)
          strength alpha.

Definition _mapping (self : Plot) (x y matrix : ndarray)
    : result (list edge) :=
  let uv := where_gt matrix (_threshold self) in
  let u := map fst uv in
  let v := map snd uv in
  let c := map (getitem2 matrix) uv in
  let xy := concatenate_last (take x u) (take y v) in
  (sc <-
     (if _scale_alpha_by_coupling self then
        min_matrix <- jnp_min c ;;
        max_matrix <- jnp_max c ;;
        Ok (negb (Qeq_bool max_matrix min_matrix), min_matrix, max_matrix)
      else Ok (false, 0, 0)) ;;
   let '(scale_alpha_by_coupling, min_matrix, max_matrix) := sc in
   Ok (map (mapping_step self matrix xy c
              scale_alpha_by_coupling min_matrix max_matrix)
           (seq 0 (length xy))))%result.

(** ** Array operations used by the projection and the barycenters *)

(** [jnp.concatenate([x, y], axis=0)]: the second dimensions must agree. *)
Definition concatenate0 (x y : ndarray) : result ndarray :=
  if Nat.eqb (shape1 x) (shape1 y)
  then Ok (mk_ndarray (shape1 x) (rows x ++ rows y))
  else Raise (TypeError
         "Cannot concatenate arrays with different numbers of columns").

(** [u * s] for a 2-D [u] and a 1-D [s]: [s] is broadcast along the rows. *)
Definition mul_rows (u : ndarray) (s : list Q) : result ndarray :=
  if Nat.eqb (shape1 u) (length s)
  then Ok (mk_ndarray (shape1 u)
             (map (fun r => map (fun p => fst p * snd p) (combine r s))
                  (rows u)))
  else match s with
       | [s0] => Ok (mk_ndarray (shape1 u)
                       (map (fun r => map (fun e => e * s0) r) (rows u)))
       | _ => if Nat.eqb (shape1 u) 1
              then Ok (mk_ndarray (length s)
                         (map (fun r => map (fun e => getitem 0 r 0%nat * e) s)
                              (rows u)))
              else Raise (TypeError "Incompatible shapes for broadcasting")
       end.

(** [proj[:k]] and [proj[k:]]. *)
Definition slice_to (p : ndarray) (k : nat) : ndarray :=
  mk_ndarray (shape1 p) (firstn k (rows p)).

Definition slice_from (p : ndarray) (k : nat) : ndarray :=
  mk_ndarray (shape1 p) (skipn k (rows p)).

(** [x.T] *)
Definition transpose (x : ndarray) : ndarray :=
  mk_ndarray (shape0 x)
    (map (fun j => map (fun r => getitem 0 r j) (rows x))
         (seq 0 (shape1 x))).

Definition dot (r c : list Q) : Q :=
  fold_left Qplus (map (fun p => fst p * snd p) (combine r c)) 0.

(** [jnp.matmul(p, q)] of two 2-D arrays. *)
Definition matmul (p q : ndarray) : result ndarray :=
  if Nat.eqb (shape1 p) (shape0 q)
  then Ok (mk_ndarray (shape1 q)
             (map (fun r => map (dot r) (rows (transpose q))) (rows p)))
  else Raise (TypeError "matmul: incompatible shapes").

(** [1 / a[:, None] * t]: the column vector [1 / a] broadcast against the
    rows of [t]. *)
Definition scale_rows_inv (a : list Q) (t : ndarray) : result ndarray :=
  let inv := map (fun w => 1 / w) a in
  if Nat.eqb (length a) (shape0 t)
  then Ok (mk_ndarray (shape1 t)
             (map (fun p => map (fun e => fst p * e) (snd p))
                  (combine inv (rows t))))
  else match inv, rows t with
       | [i0], _ => Ok (mk_ndarray (shape1 t)
                          (map (fun r => map (fun e => i0 * e) r) (rows t)))
       | _, [r0] => Ok (mk_ndarray (shape1 t)
                          (map (fun i => map (fun e => i * e) r0) inv))
       | _, _ => Raise (TypeError "Incompatible shapes for broadcasting")
       end.

(** ** Transport outputs *)

Inductive Geometry : Type :=
| PointCloud (x y : ndarray)
| CostGeometry (cost_matrix : ndarray)
| Grid (grid_size : list nat).

(** [isinstance(geom, pointcloud.PointCloud)] *)
Definition isinstance_PointCloud (g : Geometry) : bool :=
  match g with
  | PointCloud _ _ => true
  | _ => false
  end.

Record Transport : Type := mk_Transport {
  geom : Geometry;
  a : list Q;
  b : list Q;
  matrix : ndarray
}.

(** ** Operations on the axes *)

Definition add_artist (ax : Axes) (p : artist) : handle * Axes :=
  (length (artists ax), mk_Axes (artists ax ++ [p]) (legend_fontsize ax)).

(** [ax.scatter( *args, s=s, edgecolors=.., marker=.., label=..)]: the
    positional arguments are the unpacked rows of a transposed array and must
    be exactly the two coordinate vectors. *)
Definition ax_scatter (ax : Axes) (args : list (list Q)) (s : list Q)
    (edgecolors marker label : string) : result (handle * Axes) :=
  match args with
  | [xs; ys] =>
      Ok (add_artist ax
            (PathCollection (map (fun p => [fst p; snd p]) (combine xs ys))
                            s edgecolors marker label))
  | [] => Raise (TypeError
            "scatter() missing 2 required positional arguments: 'x' and 'y'")
  | [_] => Raise (TypeError
             "scatter() missing 1 required positional argument: 'y'")
  | _ => Raise (TypeError "scatter() got multiple values for argument 's'")
  end.

(** [ax.plot(xdata, ydata, linewidth=.., color=.., zorder=.., alpha=..)],
    which returns the one line it creates. *)
Definition ax_plot (ax : Axes) (xdata ydata : Q * Q) (linewidth : Q)
    (color : rgba) (zorder : Z) (alpha : Q) : handle * Axes :=
  add_artist ax (Line2D xdata ydata linewidth color zorder alpha).

Definition ax_legend (ax : Axes) (fontsize : Q) : Axes :=
  mk_Axes (artists ax) (Some fontsize).

Fixpoint update_nth {A : Type} (f : A -> A) (l : list A) (i : nat) : list A :=
  match l, i with
  | [], _ => []
  | h :: t, O => f h :: t
  | h :: t, S i' => h :: update_nth f t i'
  end.

Definition update_artist (ax : Axes) (h : handle) (f : artist -> artist)
    : Axes :=
  mk_Axes (update_nth f (artists ax) h) (legend_fontsize ax).

Definition set_offsets (x : ndarray) (p : artist) : artist :=
  match p with
  | PathCollection _ s e m l => PathCollection (rows x) s e m l
  | other => other
  end.

(** [set_data], [set_linewidth], [set_color] and [set_alpha] in one step. *)
Definition set_line (xdata ydata : Q * Q) (linewidth : Q) (color : rgba)
    (alpha : Q) (p : artist) : artist :=
  match p with
  | Line2D _ _ _ _ z _ => Line2D xdata ydata linewidth color z alpha
  | other => other
  end.

Definition set_ax (ax' : Axes) (self : Plot) : Plot :=
  mk_Plot ax' (_show_lines self) (_lines self) (_points_x self)
          (_points_y self) (_threshold self) (_scale self) (_cmap self)
          (_scale_alpha_by_coupling self) (_alpha self).

Definition set_lines (ls : list handle) (self : Plot) : Plot :=
  mk_Plot (ax self) (_show_lines self) ls (_points_x self)
          (_points_y self) (_threshold self) (_scale self) (_cmap self)
          (_scale_alpha_by_coupling self) (_alpha self).

Definition set_points_x (h : option handle) (self : Plot) : Plot :=
  mk_Plot (ax self) (_show_lines self) (_lines self) h
          (_points_y self) (_threshold self) (_scale self) (_cmap self)
          (_scale_alpha_by_coupling self) (_alpha self).

Definition set_points_y (h : option handle) (self : Plot) : Plot :=
  mk_Plot (ax self) (_show_lines self) (_lines self) (_points_x self)
          h (_threshold self) (_scale self) (_cmap self)
          (_scale_alpha_by_coupling self) (_alpha self).

(** ** Methods as computations on the object: state and exceptions *)

Definition M (A : Type) : Type := Plot -> result A * Plot.

Definition mret {A : Type} (v : A) : M A := fun self => (Ok v, self).

Definition mbind {A B : Type} (m : M A) (k : A -> M B) : M B :=
  fun self =>
    match m self with
    | (Ok v, self') => k v self'
    | (Raise e, self') => (Raise e, self')
    end.

(** A call that reads the object and may raise, without changing it. *)
Definition lift {A : Type} (r : Plot -> result A) : M A :=
  fun self => (r self, self).

Definition gets {A : Type} (f : Plot -> A) : M A :=
  fun self => (Ok (f self), self).

Definition modify (f : Plot -> Plot) : M unit :=
  fun self => (Ok tt, f self).

Declare Scope plot_scope.
Delimit Scope plot_scope with plot.

Notation "x <- m ;; k" := (mbind m (fun x => k))
  (at level 61, m at next level, right associativity) : plot_scope.

(** A [for] loop over a list. *)
Fixpoint mfor {A : Type} (l : list A) (body : A -> M unit) : M unit :=
  match l with
  | [] => mret tt
  | h :: t => (_ <- body h ;; mfor t body)%plot
  end.

Definition default_edge : edge := mk_edge (0, 0) (0, 0) 0 0.

Section Embedding.

(** The two library routines whose result the module only passes along:
    [scipy.sparse.linalg.svds(A, k)], returning [(u, s, vt)] or raising, and
    [plt.get_cmap(name)], a map from a scalar to a colour. *)
Variable svds : ndarray -> nat -> result (ndarray * list Q * ndarray).
Variable get_cmap : string -> Q -> rgba.

Definition bidimensional (x y : ndarray) : result (ndarray * ndarray) :=
  if Nat.ltb (shape1 x) 3 then Ok (x, y)
  else
    (xy <- concatenate0 x y ;;
     usv <- svds xy 2 ;;
     let '(u, s, _) := usv in
     proj <- mul_rows u s ;;
     let k := shape0 x in
     Ok (slice_to proj k, slice_from proj k))%result.

Definition _scatter (self : Plot) (ot : Transport)
    : result (ndarray * ndarray * list Q * list Q) :=
  if negb (isinstance_PointCloud (geom ot))
  then Raise geometry_kind_error
  else
    match geom ot with
    | PointCloud x y =>
        (xy <- bidimensional x y ;;
         let '(x, y) := xy in
         let scales_x :=
           map (fun w => w * _scale self * Q_of_nat (length (a ot))) (a ot) in
         let scales_y :=
           map (fun w => w * _scale self * Q_of_nat (length (b ot))) (b ot) in
         Ok (x, y, scales_x, scales_y))%result
    | _ => Raise (AttributeError "geometry has no attribute 'x'")
    end.

(** [self.ax.scatter( *pts.T, s=s, edgecolors="k", marker=.., label=..)] *)
Definition self_scatter (pts : ndarray) (s : list Q) (marker label : string)
    : M handle :=
  fun self =>
    match ax_scatter (ax self) (rows (transpose pts)) s "k" marker label with
    | Ok (h, ax') => (Ok h, set_ax ax' self)
    | Raise e => (Raise e, self)
    end.

(** The [self.ax.plot] call shared by [__call__] and [update], followed by
    [self._lines.append(line)]. *)
Definition self_plot_line (l : edge) : M unit :=
  fun self =>
    let cmap := get_cmap (_cmap self) in
    let '(line, ax') :=
      ax_plot (ax self) (start l) (end_ l) ((1 # 2) + 4 * strength l)
              (cmap (strength l)) 0%Z (alpha l) in
    (Ok tt, set_lines (_lines self ++ [line]) (set_ax ax' self)).

Definition __call__ (ot : Transport) : M (list handle) :=
  (r <- lift (fun self => _scatter self ot) ;;
   let '(x, y, sx, sy) := r in
   px <- self_scatter x sx "o" "x" ;;
   _ <- modify (set_points_x (Some px)) ;;
   py <- self_scatter y sy "X" "y" ;;
   _ <- modify (set_points_y (Some py)) ;;
   _ <- modify (fun self => set_ax (ax_legend (ax self) 15) self) ;;
   show_lines <- gets _show_lines ;;
   if negb show_lines then mret []
   else
     lines <- lift (fun self => _mapping self x y (matrix ot)) ;;
     _ <- modify (set_lines []) ;;
     _ <- mfor lines self_plot_line ;;
     ls <- gets _lines ;;
     mret ([px; py] ++ ls))%plot.

(** [points.set_offsets(x)] on an attribute that may still be [None]. *)
Definition points_set_offsets (attr : Plot -> option handle) (x : ndarray)
    : M handle :=
  fun self =>
    match attr self with
    | None => (Raise (AttributeError
                 "'NoneType' object has no attribute 'set_offsets'"), self)
    | Some h => (Ok h, set_ax (update_artist (ax self) h (set_offsets x)) self)
    end.

Definition update_line (ln : handle * edge) : M unit :=
  fun self =>
    let cmap := get_cmap (_cmap self) in
    let l := snd ln in
    (Ok tt,
     set_ax (update_artist (ax self) (fst ln)
               (set_line (start l) (end_ l) ((1 # 2) + 4 * strength l)
                         (cmap (strength l)) (alpha l)))
            self).

Definition update (ot : Transport) : M (list handle) :=
  (r <- lift (fun self => _scatter self ot) ;;
   let '(x, y, _, _) := r in
   px <- points_set_offsets _points_x x ;;
   py <- points_set_offsets _points_y y ;;
   show_lines <- gets _show_lines ;;
   if negb show_lines then mret []
   else
     new_lines <- lift (fun self => _mapping self x y (matrix ot)) ;;
     old <- gets _lines ;;
     _ <- mfor (combine old new_lines) update_line ;;
     num_lines <- gets (fun self => length (_lines self)) ;;
     num_to_plot <- gets (fun self =>
                       if _show_lines self then length new_lines else 0%nat) ;;
     _ <- mfor (seq num_lines (num_to_plot - num_lines))
               (fun i => self_plot_line (nth i new_lines default_edge)) ;;
     _ <- modify (fun self =>
                    set_lines (firstn num_to_plot (_lines self)) self) ;;
     ls <- gets _lines ;;
     mret ([px; py] ++ ls))%plot.

(** ** Barycentric projections *)

Definition _barycenters (ax : Axes) (y : ndarray) (a b : list Q)
    (matrix : ndarray) (scale : Q) : result unit * Axes :=
  match (min_a <- jnp_min a ;;
         min_b <- jnp_min b ;;
         Ok (min_a / scale, min_b / scale))%result with
  | Raise e => (Raise e, ax)
  | Ok (sa, sb) =>
      match ax_scatter ax (rows (transpose y)) (map (fun w => w / sb) b)
                       "k" "X" "y" with
      | Raise e => (Raise e, ax)
      | Ok (_, ax1) =>
          match (my <- matmul matrix y ;; scale_rows_inv a my)%result with
          | Raise e => (Raise e, ax1)
          | Ok tx =>
              match ax_scatter ax1 (rows (transpose tx))
                               (map (fun w => w / sa) a) "k" "X" "T(x)" with
              | Raise e => (Raise e, ax1)
              | Ok (_, ax2) => (Ok tt, ax_legend ax2 15)
              end
          end
      end
  end.

Record GWOutput : Type := mk_GWOutput {
  linear_state_geom : Geometry;
  gw_a : list Q;
  gw_b : list Q;
  gw_matrix : ndarray
}.

(** The first argument of [barycentric_projections]: a raw array, or the
    output of a linear or of a quadratic solver. *)
Inductive projections_arg : Type :=
| ArrayArg (y : ndarray)
| TransportArg (ot : Transport)
| GWArg (out : GWOutput).

Definition geom_y (g : Geometry) : result ndarray :=
  match g with
  | PointCloud _ y => Ok y
  | _ => Raise (AttributeError "geometry has no attribute 'y'")
  end.

(** [jnp.ones(n) / n] *)
Definition uniform (n : nat) : list Q :=
  map (fun one => one / Q_of_nat n) (repeat 1 n).

(** [kwargs] can only carry [scale], the one keyword [_barycenters] takes
    besides its positional parameters; its default there is [200]. *)
Definition barycentric_projections (arg : projections_arg)
    (a b : option (list Q)) (matrix : option ndarray) (ax : option Axes)
    (kwargs : option Q) : result unit * Axes :=
  let ax := match ax with None => empty_axes | Some ax => ax end in
  let scale := match kwargs with None => 200 | Some s => s end in
  match arg with
  | ArrayArg y =>
      match matrix with
      | None => (Raise (ValueError "The `matrix` argument cannot be None."), ax)
      | Some matrix =>
          let a := match a with
                   | None => uniform (shape0 matrix)
                   | Some a => a
                   end in
          let b := match b with
                   | None => uniform (shape1 matrix)
                   | Some b => b
                   end in
          _barycenters ax y a b matrix scale
      end
  | TransportArg (mk_Transport ot_geom ot_a ot_b ot_matrix) =>
      match geom_y ot_geom with
      | Raise e => (Raise e, ax)
      | Ok y => _barycenters ax y ot_a ot_b ot_matrix scale
      end
  | GWArg out =>
      match geom_y (linear_state_geom out) with
      | Raise e => (Raise e, ax)
      | Ok y => _barycenters ax y (gw_a out) (gw_b out) (gw_matrix out) scale
      end
  end.

End Embedding.

(** ** [animate] *)

(** What [animate] and the callbacks it builds can raise: an error of a
    method of the plot, the [IndexError] of [transports[i]] and the
    [ZeroDivisionError] of [1000 / frame_rate]. *)
Inductive animate_exn : Type :=
| MethodError (e : exn)
| IndexError
| ZeroDivisionError.

(** A function of the plot handed to matplotlib, to be called later. *)
Definition callback : Type := Plot -> (animate_exn + list handle) * Plot.

(** The arguments [animate] passes to [animation.FuncAnimation], which
    keeps them for the frames to come.  (The figure is not part of the
    model.) *)
Record FuncAnimation : Type := mk_FuncAnimation {
  func : nat -> callback;
  frames : list nat;
  init_func : callback;
  interval : Q;
  blit : bool
}.

Section Animation.

Variable svds : ndarray -> nat -> result (ndarray * list Q * ndarray).
Variable get_cmap : string -> Q -> rgba.

(** [lambda i: self.update(transports[i])] *)
Definition update_frame (transports : list Transport) (i : nat) : callback :=
  fun self =>
    match nth_error transports i with
    | None => (inl IndexError, self)
    | Some ot =>
        match update svds get_cmap ot self with
        | (Ok hs, s') => (inr hs, s')
        | (Raise e, s') => (inl (MethodError e), s')
        end
    end.

Definition animate (transports : list Transport) (frame_rate : Q)
    (self : Plot) : (animate_exn + FuncAnimation) * Plot :=
  match nth_error transports 0 with
  | None => (inl IndexError, self)
  | Some ot0 =>
      match __call__ svds get_cmap ot0 self with
      | (Raise e, s') => (inl (MethodError e), s')
      | (Ok _, s') =>
          if Qeq_bool frame_rate 0 then (inl ZeroDivisionError, s')
          else (inr (mk_FuncAnimation
                       (update_frame transports)
                       (seq 0 (length transports))
                       (update_frame transports 0)
                       (1000 / frame_rate)
                       true),
                s')
      end
  end.

End Animation.


(** ** The alpha of [_mapping] in floating point *)

(** The rationals above have no NaN, no infinity and no overflow.  To see
    what the final clip guarantees on the arrays the source handles, the
    alpha computation of [_mapping] is embedded a second time over IEEE 754
    values ([spec_float]): the coupling and the threshold in binary32 (the
    default of [jnp] arrays, to which the Python threshold is promoted),
    the base alpha and the alpha of an edge in binary64 (Python floats). *)












(** * Vocabulary of the statements *)

(** All index pairs of an [n]-by-[m] array, row by row. *)
Definition index_pairs (n m : nat) : list (nat * nat) :=
  list_prod (seq 0 n) (seq 0 m).

(** The pairs [(i, j)] with [matrix[i, j] > t], in row-major order: a filter
    of the row-major enumeration.  This is the specification's reading of
    the selection; [where_gt] is the source's. *)
Definition selected (matrix : ndarray) (t : Q) : list (nat * nat) :=
  filter (fun ij => Qgtb (getitem2 matrix ij) t)
         (index_pairs (shape0 matrix) (shape1 matrix)).

(** Row-major order on index pairs. *)
Definition row_major_lt (p q : nat * nat) : Prop :=
  (fst p < fst q)%nat \/ (fst p = fst q /\ (snd p < snd q)%nat).

(** A 2-D point read off a row. *)
Definition point (r : list Q) : Q * Q := (getitem 0 r 0%nat, getitem 0 r 1%nat).

(** The alpha of one edge, as the loop body computes it. *)
Definition edge_alpha (base : Q) (scaled : bool) (mn mx ci : Q) : Q :=
  np_clip (if scaled then base * ((ci - mn) / (mx - mn)) else base) 0 1.

(** The tuple the loop builds for the index pair [ij]. *)
Definition edge_of (x y matrix : ndarray) (al : Q) (ij : nat * nat) : edge :=
  mk_edge (getitem2 x (fst ij, 0%nat), getitem2 y (snd ij, 0%nat))
          (getitem2 x (fst ij, 1%nat), getitem2 y (snd ij, 1%nat))
          (Q_of_nat (Nat.max (shape0 matrix) (shape1 matrix))
           * getitem2 matrix ij)
          al.

(** The least and the greatest entry of a vector ([0] for the empty one, on
    which the source never evaluates them without raising). *)
Definition vec_min (c : list Q) : Q :=
  match jnp_min c with Ok v => v | Raise _ => 0 end.

Definition vec_max (c : list Q) : Q :=
  match jnp_max c with Ok v => v | Raise _ => 0 end.

(** The alpha of an edge as a function of the selected entries [c] and of
    the entry [ci] of the edge. *)
Definition coupling_alpha (self : Plot) (c : list Q) (ci : Q) : Q :=
  edge_alpha (_alpha self)
    (_scale_alpha_by_coupling self
     && negb (Qeq_bool (vec_max c) (vec_min c)))
    (vec_min c) (vec_max c) ci.

(** The tuple with [start = x[i]] and [end = y[j]]. *)
Definition point_to_point_edge (x y matrix : ndarray) (al : Q)
    (ij : nat * nat) : edge :=
  mk_edge (point (getrow x (fst ij))) (point (getrow y (snd ij)))
          (Q_of_nat (Nat.max (shape0 matrix) (shape1 matrix))
           * getitem2 matrix ij)
          al.

(** The linear normalisation of an entry between two distinct bounds. *)
Definition normalized (mn mx ci : Q) : Q := (ci - mn) / (mx - mn).

(** [diag(s)] *)
Definition diag (s : list Q) : ndarray :=
  mk_ndarray (length s)
    (map (fun i => map (fun j => if Nat.eqb i j then nth i s 0 else 0)
                       (seq 0 (length s)))
         (seq 0 (length s))).

(** Two arrays of the same shape whose entries are equal as rationals. *)
Definition array_equiv (p q : ndarray) : Prop :=
  shape1 p = shape1 q /\ Forall2 (Forall2 Qeq) (rows p) (rows q).

(** A method that never raises the geometry error, in whatever state it is
    called. *)
Definition avoids_geometry_error {A : Type} (m : M A) : Prop :=
  forall self, fst (m self) <> Raise geometry_kind_error.

(** Column [j] of an array, and the offsets [scatter] stores for the two
    coordinate vectors it receives from a transposed array. *)
Definition column (x : ndarray) (j : nat) : list Q :=
  map (fun r => getitem 0 r j) (rows x).

Definition scatter_offsets (x : ndarray) : list (list Q) :=
  map (fun p => [fst p; snd p]) (combine (column x 0) (column x 1)).

(** The segment that [ax.plot(start, end)] draws for an edge: it runs from
    the point of the two first coordinates to the point of the two second
    ones. *)
Definition segment (e : edge) : (Q * Q) * (Q * Q) :=
  ((fst (start e), fst (end_ e)), (snd (start e), snd (end_ e))).

(** [l1] is [l2] with some elements left out. *)
Inductive subseq {A : Type} : list A -> list A -> Prop :=
| subseq_nil : subseq [] []
| subseq_skip (v : A) (l1 l2 : list A) : subseq l1 l2 -> subseq l1 (v :: l2)
| subseq_keep (v : A) (l1 l2 : list A) :
    subseq l1 l2 -> subseq (v :: l1) (v :: l2).

(** The line [self.ax.plot] creates for an edge, with the colour map
    [cmap]. *)
Definition line_of_edge (cmap : Q -> rgba) (l : edge) : artist :=
  Line2D (start l) (end_ l) ((1 # 2) + 4 * strength l) (cmap (strength l))
         0%Z (alpha l).

Definition is_line (p : artist) : bool :=
  match p with
  | Line2D _ _ _ _ _ _ => true
  | PathCollection _ _ _ _ _ => false
  end.

(** What a handle refers to on the axes: nothing, a line or a scatter. *)
Definition handle_kind (axes : Axes) (h : handle) : option bool :=
  option_map is_line (nth_error (artists axes) h).

(** The handles a plot holds are sound: the line handles are distinct and
    refer to lines of its axes, the point handles refer to scatters. *)
Definition plot_ok (self : Plot) : Prop :=
  NoDup (_lines self) /\
  Forall (fun h => handle_kind (ax self) h = Some true) (_lines self) /\
  (forall h, _points_x self = Some h -> handle_kind (ax self) h = Some false)
  /\
  (forall h, _points_y self = Some h -> handle_kind (ax self) h = Some false).

(** Two states of a plot with the same constructor settings. *)
Definition same_config (s s' : Plot) : Prop :=
  _show_lines s' = _show_lines s /\ _threshold s' = _threshold s /\
  _scale s' = _scale s /\ _cmap s' = _cmap s /\
  _scale_alpha_by_coupling s' = _scale_alpha_by_coupling s /\
  _alpha s' = _alpha s.

(** The artists of [axes'] extend those of [axes] and keep their kinds. *)
Definition axes_grow (axes axes' : Axes) : Prop :=
  (length (artists axes) <= length (artists axes'))%nat /\
  forall h, (h < length (artists axes))%nat ->
    handle_kind axes' h = handle_kind axes h.

(** A method run from a state satisfying [P] ends, when it returns [v], in
    a state satisfying [Q v], and when it raises, in a state satisfying
    [E]. *)
Definition triple {A : Type} (P : Plot -> Prop) (m : M A)
    (Q : A -> Plot -> Prop) (E : Plot -> Prop) : Prop :=
  forall self, P self ->
    match m self with
    | (Ok v, s') => Q v s'
    | (Raise _, s') => E s'
    end.

(** What holds of a plot [s] reached from [s0] by the methods: the settings
    are those of [s0], the artists of [s0] are all still there, and the
    handles are sound if they were. *)
Definition stays (s0 s : Plot) : Prop :=
  same_config s0 s /\ axes_grow (ax s0) (ax s) /\ (plot_ok s0 -> plot_ok s).

(** * Sample inputs *)

Definition sample_plot (show_lines scale_alpha : bool) (threshold base : Q)
    : Plot :=
  mk_Plot empty_axes show_lines [] None None threshold 200 "cool"
          scale_alpha base.

(** Three source points, two target points and a coupling with one dominant
    entry. *)
Definition sample_x : ndarray := mk_ndarray 2 [[0; 0]; [1; 0]; [0; 1]].
Definition sample_y : ndarray := mk_ndarray 2 [[2; 2]; [3; 3]].
Definition sample_matrix : ndarray :=
  mk_ndarray 2 [[9 # 10; 0]; [1 # 100; 0]; [0; 9 # 100]].
Definition sample_a : list Q := [1 # 3; 1 # 3; 1 # 3].
Definition sample_b : list Q := [1 # 2; 1 # 2].
Definition sample_ot : Transport :=
  mk_Transport (PointCloud sample_x sample_y) sample_a sample_b sample_matrix.

(** A coupling with a very large entry. *)
Definition large_matrix : ndarray :=
  mk_ndarray 2 [[1000000000; 1]; [0; 1 # 2]; [3; 0]].

(** One source point, one target point. *)
Definition single_x : ndarray := mk_ndarray 2 [[1; 2]].
Definition single_y : ndarray := mk_ndarray 2 [[3; 4]].
Definition single_matrix (v : Q) : ndarray := mk_ndarray 1 [[v]].

(** A transport whose geometry is a bare cost matrix. *)
Definition cost_ot : Transport :=
  mk_Transport (CostGeometry (single_matrix 1)) [1] [1] (single_matrix 1).

(** Points in three dimensions whose concatenation is [diag(3, 2, 1)]. *)
Definition spatial_x : ndarray := mk_ndarray 3 [[3; 0; 0]].
Definition spatial_y : ndarray := mk_ndarray 3 [[0; 2; 0]; [0; 0; 1]].

Definition vec_eqb (r s : list Q) : bool :=
  Nat.eqb (length r) (length s)
  && forallb (fun p => Qeq_bool (fst p) (snd p)) (combine r s).

Definition ndarray_eqb (p q : ndarray) : bool :=
  Nat.eqb (shape1 p) (shape1 q) && Nat.eqb (shape0 p) (shape0 q)
  && forallb (fun pr => vec_eqb (fst pr) (snd pr)) (combine (rows p) (rows q)).

(** An SVD routine that knows the two leading singular triplets of
    [diag(3, 2, 1)], in the ascending order [svds] returns them, and does not
    converge on anything else. *)
Definition sample_svds (m : ndarray) (k : nat)
    : result (ndarray * list Q * ndarray) :=
  if ndarray_eqb m (mk_ndarray 3 [[3; 0; 0]; [0; 2; 0]; [0; 0; 1]])
     && Nat.eqb k 2
  then Ok (mk_ndarray 2 [[0; 1]; [1; 0]; [0; 0]], [2; 3],
           mk_ndarray 3 [[0; 1; 0]; [1; 0; 0]])
  else Raise (ArpackError "ARPACK error -1: No convergence").

(** The colour map [cool]: from cyan to magenta. *)
Definition sample_cmap (name : string) (v : Q) : rgba := (v, 1 - v, 1, 1).

(** A plot without lines whose two scatters have been drawn. *)
Definition drawn_plot : Plot :=
  mk_Plot (mk_Axes [PathCollection [[0; 0]] [200] "k" "o" "x";
                    PathCollection [[0; 0]] [200] "k" "X" "y"]
                   (Some 15))
          false [] (Some 0%nat) (Some 1%nat) (-1) 200 "cool" false (7 # 10).

(** A dense coupling on the sample points: every entry is positive. *)
Definition dense_matrix : ndarray :=
  mk_ndarray 2 [[1 # 4; 1 # 12]; [1 # 12; 1 # 4]; [1 # 6; 1 # 6]].
Definition dense_ot : Transport :=
  mk_Transport (PointCloud sample_x sample_y) sample_a sample_b dense_matrix.

(** The sample plot after a first call on the sample transport. *)
Definition called_plot : Plot :=
  snd (__call__ sample_svds sample_cmap sample_ot
         (sample_plot true false 0 (7 # 10))).

(** A point cloud whose target points have three coordinates. *)
Definition mixed_ot : Transport :=
  mk_Transport (PointCloud sample_x spatial_y) sample_a sample_b
               sample_matrix.

(** Points in four dimensions. *)
Definition hyper_y : ndarray := mk_ndarray 4 [[0; 0; 0; 1]].

(** The output of a quadratic solver on the sample points. *)
Definition sample_gw : GWOutput :=
  mk_GWOutput (PointCloud sample_x sample_y) sample_a sample_b
              sample_matrix.

(** * Properties *)

(** ** Lists *)

Lemma getitem_nth {A : Type} (d : A) (l : list A) (i : nat) :
  (i < length l)%nat -> getitem d l i = nth i l d.
Proof.
  intros Hi. unfold getitem.
  replace (Nat.min i (Nat.pred (length l))) with i by lia.
  reflexivity.
Qed.

Lemma getitem_In {A : Type} (d : A) (l : list A) (i : nat) :
  l <> [] -> In (getitem d l i) l.
Proof.
  intros Hl. unfold getitem. apply nth_In.
  destruct l as [|h t]; [congruence|]. simpl length. lia.
Qed.

Lemma combine_seq_nth {A : Type} (d : A) (l : list A) (k : nat) :
  combine (seq k (length l)) l =
  map (fun j => (j, nth (j - k) l d)) (seq k (length l)).
Proof.
  revert k. induction l as [|h t IH]; intros k; simpl; [reflexivity|].
  rewrite Nat.sub_diag. f_equal.
  rewrite (IH (S k)). apply map_ext_in.
  intros j Hj. apply in_seq in Hj.
  replace (j - k)%nat with (S (j - S k)) by lia. reflexivity.
Qed.

Lemma enumerate_nth {A : Type} (d : A) (l : list A) :
  enumerate l = map (fun j => (j, nth j l d)) (seq 0 (length l)).
Proof.
  unfold enumerate. rewrite (combine_seq_nth d l 0).
  apply map_ext. intros j. now rewrite Nat.sub_0_r.
Qed.

Lemma map_seq_nth {A B : Type} (d : A) (f : A -> B) (l : list A) :
  map (fun k => f (nth k l d)) (seq 0 (length l)) = map f l.
Proof.
  rewrite <- (map_map (fun k => nth k l d) f). f_equal.
  apply (nth_ext _ _ d d).
  - now rewrite length_map, length_seq.
  - intros n Hn. rewrite length_map, length_seq in Hn.
    rewrite (nth_indep _ d (nth 0 l d)) by now rewrite length_map, length_seq.
    change (nth 0 l d) with ((fun k => nth k l d) 0%nat).
    rewrite map_nth, seq_nth by assumption. reflexivity.
Qed.

Lemma filter_flat_map {A B : Type} (p : B -> bool) (f : A -> list B)
    (l : list A) :
  filter p (flat_map f l) = flat_map (fun x => filter p (f x)) l.
Proof.
  induction l as [|h t IH]; simpl; [reflexivity|].
  now rewrite filter_app, IH.
Qed.

Lemma flat_map_ext_in {A B : Type} (f g : A -> list B) (l : list A) :
  (forall x, In x l -> f x = g x) -> flat_map f l = flat_map g l.
Proof.
  induction l as [|h t IH]; intros H; simpl; [reflexivity|].
  rewrite (H h) by now left. f_equal. apply IH. intros x Hx. apply H. now right.
Qed.

Lemma flat_map_map {A B C : Type} (f : A -> B) (g : B -> list C)
    (l : list A) :
  flat_map g (map f l) = flat_map (fun x => g (f x)) l.
Proof.
  induction l as [|h t IH]; simpl; [reflexivity|]. now rewrite IH.
Qed.

(** ** The selection made by [jnp.where] *)

Lemma getitem2_in_range (matrix : ndarray) (i j : nat) :
  well_shaped matrix ->
  (i < shape0 matrix)%nat -> (j < shape1 matrix)%nat ->
  getitem2 matrix (i, j) = nth j (nth i (rows matrix) []) 0.
Proof.
  intros Hw Hi Hj. unfold getitem2, getrow. simpl.
  rewrite (getitem_nth [] (rows matrix) i) by exact Hi.
  apply getitem_nth.
  unfold well_shaped in Hw. rewrite Forall_forall in Hw.
  rewrite (Hw (nth i (rows matrix) [])); [exact Hj|].
  apply nth_In. exact Hi.
Qed.

(** The source's selection is the specification's. *)
Lemma where_gt_selected (matrix : ndarray) (t : Q) :
  well_shaped matrix -> where_gt matrix t = selected matrix t.
Proof.
  intros Hw. unfold where_gt, selected, index_pairs.
  rewrite list_prod_as_flat_map, filter_flat_map.
  rewrite (enumerate_nth [] (rows matrix)), flat_map_map.
  apply flat_map_ext_in. intros i Hi. apply in_seq in Hi. unfold shape0 in Hi.
  simpl fst; simpl snd.
  assert (Hlen : length (nth i (rows matrix) []) = shape1 matrix).
  { unfold well_shaped in Hw. rewrite Forall_forall in Hw.
    apply Hw, nth_In. lia. }
  rewrite (enumerate_nth 0 (nth i (rows matrix) [])), Hlen.
  rewrite !filter_map_swap, map_map. simpl.
  f_equal. apply filter_ext_in. intros j Hj. apply in_seq in Hj.
  rewrite getitem2_in_range; [reflexivity|exact Hw| |]; unfold shape0; lia.
Qed.

Lemma Qgtb_lt (v t : Q) : Qgtb v t = true <-> t < v.
Proof.
  unfold Qgtb. rewrite Qlt_alt.
  destruct (t ?= v); split; intros H; congruence.
Qed.

(** Membership in the selection: in range and strictly above the threshold. *)
Lemma selected_In (matrix : ndarray) (t : Q) (i j : nat) :
  In (i, j) (selected matrix t) <->
  (i < shape0 matrix)%nat /\ (j < shape1 matrix)%nat /\
  t < getitem2 matrix (i, j).
Proof.
  unfold selected, index_pairs.
  rewrite filter_In, in_prod_iff, !in_seq, Qgtb_lt. intuition lia.
Qed.

(** ** Row-major order of the selection *)

Lemma StronglySorted_app {A : Type} (R : A -> A -> Prop) (l1 l2 : list A) :
  StronglySorted R l1 -> StronglySorted R l2 ->
  (forall p q, In p l1 -> In q l2 -> R p q) ->
  StronglySorted R (l1 ++ l2).
Proof.
  induction l1 as [|h t IH]; intros H1 H2 Hc; simpl; [exact H2|].
  apply StronglySorted_inv in H1. destruct H1 as [Ht Hh].
  constructor.
  - apply IH; [exact Ht|exact H2|]. intros p q Hp Hq. apply Hc; simpl; auto.
  - apply Forall_app. split; [exact Hh|].
    apply Forall_forall. intros q Hq. apply Hc; simpl; auto.
Qed.

Lemma StronglySorted_filter {A : Type} (R : A -> A -> Prop) (f : A -> bool)
    (l : list A) :
  StronglySorted R l -> StronglySorted R (filter f l).
Proof.
  induction 1 as [|h t Ht IH Hh]; simpl; [constructor|].
  destruct (f h); [|exact IH].
  constructor; [exact IH|].
  rewrite Forall_forall in *. intros q Hq. apply filter_In in Hq. now apply Hh.
Qed.

Lemma row_sorted (i k m : nat) :
  StronglySorted row_major_lt (map (pair i) (seq k m)).
Proof.
  revert k. induction m as [|m IH]; intros k; simpl; constructor.
  - apply IH.
  - apply Forall_forall. intros q Hq. apply in_map_iff in Hq.
    destruct Hq as [j [<- Hj]]. apply in_seq in Hj.
    right. simpl. lia.
Qed.

Lemma index_pairs_sorted_from (k n m : nat) :
  StronglySorted row_major_lt (list_prod (seq k n) (seq 0 m)).
Proof.
  revert k. induction n as [|n IH]; intros k; simpl; [constructor|].
  apply StronglySorted_app; [apply row_sorted|apply IH|].
  intros p q Hp Hq. apply in_map_iff in Hp. destruct Hp as [j [<- _]].
  destruct q as [i' j']. apply in_prod_iff in Hq. destruct Hq as [Hi' _].
  apply in_seq in Hi'. left. simpl. lia.
Qed.

Lemma selected_sorted (matrix : ndarray) (t : Q) :
  StronglySorted row_major_lt (selected matrix t).
Proof.
  apply StronglySorted_filter, index_pairs_sorted_from.
Qed.

(** ** The loop of [_mapping] as a map over the selected pairs *)

Lemma concatenate_last_take (x y : ndarray) (uv : list (nat * nat)) :
  concatenate_last (take x (map fst uv)) (take y (map snd uv)) =
  map (fun ij => getrow x (fst ij) ++ getrow y (snd ij)) uv.
Proof.
  unfold concatenate_last, take.
  induction uv as [|h t IH]; simpl; [reflexivity|]. now rewrite IH.
Qed.

Lemma getitem_map_nth {A B : Type} (d : B) (d' : A) (g : A -> B)
    (l : list A) (k : nat) :
  (k < length l)%nat -> getitem d (map g l) k = g (nth k l d').
Proof.
  intros Hk. rewrite getitem_nth by now rewrite length_map.
  rewrite (nth_indep _ d (g d')) by now rewrite length_map.
  apply map_nth.
Qed.

Lemma row_of_width_2 (x : ndarray) (i : nat) :
  well_shaped x -> shape1 x = 2%nat -> (i < shape0 x)%nat ->
  exists p q, getrow x i = [p; q].
Proof.
  intros Hw H2 Hi. unfold getrow.
  assert (Hin : In (getitem [] (rows x) i) (rows x)).
  { apply getitem_In. unfold shape0 in Hi.
    destruct (rows x); [simpl in Hi; lia|congruence]. }
  unfold well_shaped in Hw. rewrite Forall_forall in Hw.
  specialize (Hw _ Hin). rewrite H2 in Hw.
  destruct (getitem [] (rows x) i) as [|p [|q [|r t]]]; try discriminate.
  now exists p, q.
Qed.

Lemma mapping_loop (self : Plot) (x y matrix : ndarray)
    (uv : list (nat * nat)) (scaled : bool) (mn mx : Q) :
  well_shaped x -> shape1 x = 2%nat ->
  well_shaped y -> shape1 y = 2%nat ->
  (forall ij, In ij uv ->
     (fst ij < shape0 x)%nat /\ (snd ij < shape0 y)%nat) ->
  let xy := concatenate_last (take x (map fst uv)) (take y (map snd uv)) in
  let c := map (getitem2 matrix) uv in
  map (mapping_step self matrix xy c scaled mn mx) (seq 0 (length xy)) =
  map (fun ij =>
         edge_of x y matrix
           (edge_alpha (_alpha self) scaled mn mx (getitem2 matrix ij)) ij)
      uv.
Proof.
  intros Hx Hx2 Hy Hy2 Hr xy c. subst xy c.
  rewrite concatenate_last_take, length_map.
  rewrite <- (map_seq_nth (0%nat, 0%nat)
                (fun ij => edge_of x y matrix
                   (edge_alpha (_alpha self) scaled mn mx (getitem2 matrix ij))
                   ij) uv).
  apply map_ext_in. intros k Hk. apply in_seq in Hk.
  unfold mapping_step.
  rewrite (getitem_map_nth 0 (0%nat, 0%nat)) by lia.
  rewrite (getitem_map_nth [] (0%nat, 0%nat)) by lia.
  set (ij := nth k uv (0%nat, 0%nat)).
  assert (Hin : In ij uv) by (apply nth_In; lia).
  destruct (Hr ij Hin) as [Hi Hj].
  destruct (row_of_width_2 x (fst ij) Hx Hx2 Hi) as [p [q Hp]].
  destruct (row_of_width_2 y (snd ij) Hy Hy2 Hj) as [r [s Hs]].
  unfold edge_of, edge_alpha, getitem2. simpl fst; simpl snd.
  rewrite Hp, Hs. reflexivity.
Qed.

Lemma selected_in_range (x y matrix : ndarray) (t : Q) :
  shape0 matrix = shape0 x -> shape1 matrix = shape0 y ->
  forall ij, In ij (selected matrix t) ->
    (fst ij < shape0 x)%nat /\ (snd ij < shape0 y)%nat.
Proof.
  intros Hn Hm [i j] Hin. apply selected_In in Hin. simpl. lia.
Qed.

Lemma jnp_min_nonempty (c : list Q) :
  c <> [] -> jnp_min c = Ok (vec_min c).
Proof. destruct c; [congruence|reflexivity]. Qed.

Lemma jnp_max_nonempty (c : list Q) :
  c <> [] -> jnp_max c = Ok (vec_max c).
Proof. destruct c; [congruence|reflexivity]. Qed.

Lemma map_nonempty {A B : Type} (f : A -> B) (l : list A) :
  l <> [] -> map f l <> [].
Proof. destruct l; [congruence|discriminate]. Qed.

Lemma mapping_value (self : Plot) (x y matrix : ndarray) :
  well_shaped x -> shape1 x = 2%nat ->
  well_shaped y -> shape1 y = 2%nat ->
  well_shaped matrix ->
  shape0 matrix = shape0 x -> shape1 matrix = shape0 y ->
  _scale_alpha_by_coupling self = false
  \/ selected matrix (_threshold self) <> [] ->
  let sel := selected matrix (_threshold self) in
  let c := map (getitem2 matrix) sel in
  _mapping self x y matrix =
  Ok (map (fun ij =>
             edge_of x y matrix
               (coupling_alpha self c (getitem2 matrix ij)) ij)
          sel).
Proof.
  intros Hx Hx2 Hy Hy2 Hm Hn0 Hn1 Hne sel c.
  unfold _mapping. rewrite (where_gt_selected _ _ Hm). fold sel. fold c.
  assert (Hr := selected_in_range x y matrix (_threshold self) Hn0 Hn1).
  fold sel in Hr. unfold coupling_alpha.
  destruct (_scale_alpha_by_coupling self) eqn:Hflag.
  - destruct Hne as [Hne|Hne]; [discriminate|].
    assert (Hc : c <> []) by (apply map_nonempty, Hne).
    rewrite (jnp_min_nonempty c Hc), (jnp_max_nonempty c Hc). simpl rbind.
    subst c.
    rewrite (mapping_loop self x y matrix sel _ _ _ Hx Hx2 Hy Hy2 Hr).
    reflexivity.
  - simpl rbind. subst c.
    rewrite (mapping_loop self x y matrix sel _ _ _ Hx Hx2 Hy Hy2 Hr).
    reflexivity.
Qed.

(** ** C1: the edges [_mapping] emits *)

(** C1, as amended.  For 2-D batches [x] (n rows), [y] (m rows) and an
    n-by-m coupling matrix, [_mapping] returns one tuple per index pair
    [(i, j)] with [matrix[i, j]] strictly above the threshold, in row-major
    order, so the number of tuples is the number of such entries and an
    entry equal to the threshold yields none.  The tuple of [(i, j)] is
    [(start, end, strength, alpha)] with [start = (x[i,0], y[j,0])] (the two
    abscissae), [end = (x[i,1], y[j,1])] (the two ordinates) and
    [strength = max(n, m) * matrix[i, j]].  Stated for the calls in which
    alpha scaling is off or some entry is selected. *)
Theorem mapping_edges_row_major (self : Plot) (x y matrix : ndarray) :
  well_shaped x -> shape1 x = 2%nat ->
  well_shaped y -> shape1 y = 2%nat ->
  well_shaped matrix ->
  shape0 matrix = shape0 x -> shape1 matrix = shape0 y ->
  _scale_alpha_by_coupling self = false
  \/ selected matrix (_threshold self) <> [] ->
  let sel := selected matrix (_threshold self) in
  let c := map (getitem2 matrix) sel in
  (forall i j, In (i, j) sel <->
     (i < shape0 matrix)%nat /\ (j < shape1 matrix)%nat /\
     _threshold self < getitem2 matrix (i, j)) /\
  StronglySorted row_major_lt sel /\
  exists edges,
    _mapping self x y matrix = Ok edges /\
    length edges = length sel /\
    edges = map (fun ij =>
                   edge_of x y matrix
                     (coupling_alpha self c (getitem2 matrix ij)) ij)
                sel.
Proof.
  intros Hx Hx2 Hy Hy2 Hm Hn0 Hn1 Hne sel c.
  split; [intros i j; apply selected_In|].
  split; [apply selected_sorted|].
  eexists. split; [|split; [|reflexivity]].
  - apply mapping_value; assumption.
  - now rewrite length_map.
Qed.

(** ** C2: nothing above the threshold *)

Lemma selected_nil (matrix : ndarray) (t : Q) :
  (forall i j, (i < shape0 matrix)%nat -> (j < shape1 matrix)%nat ->
     ~ t < getitem2 matrix (i, j)) ->
  selected matrix t = [].
Proof.
  intros Hnone. destruct (selected matrix t) as [|[i j] rest] eqn:E;
    [reflexivity|].
  assert (Hin : In (i, j) (selected matrix t)) by (rewrite E; now left).
  apply selected_In in Hin. destruct Hin as (Hi & Hj & Hlt).
  exfalso. exact (Hnone i j Hi Hj Hlt).
Qed.

(** C2, on the code.  When no entry of the matrix is strictly above the
    threshold, [_mapping] returns the empty list if alpha scaling is off,
    and raises the zero-size reduction error of [jnp.min] if it is on. *)
Theorem mapping_nothing_selected (self : Plot) (x y matrix : ndarray) :
  well_shaped matrix ->
  (forall i j, (i < shape0 matrix)%nat -> (j < shape1 matrix)%nat ->
     ~ _threshold self < getitem2 matrix (i, j)) ->
  _mapping self x y matrix =
  if _scale_alpha_by_coupling self then Raise zero_size_min else Ok [].
Proof.
  intros Hw Hnone. unfold _mapping.
  rewrite (where_gt_selected _ _ Hw), (selected_nil _ _ Hnone). simpl.
  destruct (_scale_alpha_by_coupling self); reflexivity.
Qed.

(** ** Alpha after clipping, on rationals *)

Lemma np_clip_unit (v : Q) : 0 <= np_clip v 0 1 <= 1.
Proof.
  unfold np_clip. split.
  - apply Q.min_glb; [apply Q.le_max_r|discriminate].
  - apply Q.le_min_r.
Qed.

(** In exact arithmetic, every alpha in a list returned by [_mapping] lies
    in [[0, 1]], whatever the arrays, the threshold, the base alpha and the
    scaling flag.  (The statement on floats comes last in this file.) *)
Lemma mapping_alpha_clipped (self : Plot) (x y matrix : ndarray)
    (edges : list edge) :
  _mapping self x y matrix = Ok edges ->
  Forall (fun e => 0 <= alpha e <= 1) edges.
Proof.
  unfold _mapping. intros H.
  match type of H with
  | rbind ?scale _ = _ => destruct scale as [[[sc mn] mx]|e]
  end; simpl in H; [|discriminate].
  injection H as <-. apply Forall_map, Forall_forall.
  intros k _. apply np_clip_unit.
Qed.

(** ** Minimum and maximum of a vector *)

Lemma Qmin_cases (p q : Q) : Qmin p q = p \/ Qmin p q = q.
Proof.
  unfold Qmin, GenericMinMax.gmin. destruct (p ?= q); auto.
Qed.

Lemma Qmax_cases (p q : Q) : Qmax p q = p \/ Qmax p q = q.
Proof.
  unfold Qmax, GenericMinMax.gmax. destruct (p ?= q); auto.
Qed.

Lemma fold_Qmin_In (t : list Q) (h : Q) : In (fold_left Qmin t h) (h :: t).
Proof.
  revert h. induction t as [|v t IH]; intros h; simpl; [auto|].
  destruct (IH (Qmin h v)) as [H|H]; [|auto].
  rewrite <- H. destruct (Qmin_cases h v) as [E|E]; rewrite E; auto.
Qed.

Lemma fold_Qmax_In (t : list Q) (h : Q) : In (fold_left Qmax t h) (h :: t).
Proof.
  revert h. induction t as [|v t IH]; intros h; simpl; [auto|].
  destruct (IH (Qmax h v)) as [H|H]; [|auto].
  rewrite <- H. destruct (Qmax_cases h v) as [E|E]; rewrite E; auto.
Qed.

Lemma fold_Qmin_le (t : list Q) (h : Q) :
  forall v, In v (h :: t) -> fold_left Qmin t h <= v.
Proof.
  revert h. induction t as [|w t IH]; intros h v Hv; simpl.
  - destruct Hv as [<-|[]]. apply Qle_refl.
  - destruct Hv as [<-|[<-|Hv]].
    + eapply Qle_trans; [apply IH; left; reflexivity|apply Q.le_min_l].
    + eapply Qle_trans; [apply IH; left; reflexivity|apply Q.le_min_r].
    + apply IH. right. exact Hv.
Qed.

Lemma fold_Qmax_ge (t : list Q) (h : Q) :
  forall v, In v (h :: t) -> v <= fold_left Qmax t h.
Proof.
  revert h. induction t as [|w t IH]; intros h v Hv; simpl.
  - destruct Hv as [<-|[]]. apply Qle_refl.
  - destruct Hv as [<-|[<-|Hv]].
    + eapply Qle_trans; [apply Q.le_max_l|apply IH; left; reflexivity].
    + eapply Qle_trans; [apply Q.le_max_r|apply IH; left; reflexivity].
    + apply IH. right. exact Hv.
Qed.

Lemma vec_min_In (c : list Q) : c <> [] -> In (vec_min c) c.
Proof. destruct c; [congruence|intros _; apply fold_Qmin_In]. Qed.

Lemma vec_max_In (c : list Q) : c <> [] -> In (vec_max c) c.
Proof. destruct c; [congruence|intros _; apply fold_Qmax_In]. Qed.

Lemma vec_min_le (c : list Q) (v : Q) : In v c -> vec_min c <= v.
Proof. destruct c; [intros []|apply fold_Qmin_le]. Qed.

Lemma vec_max_ge (c : list Q) (v : Q) : In v c -> v <= vec_max c.
Proof. destruct c; [intros []|apply fold_Qmax_ge]. Qed.

(** ** C5: the alpha rule *)

Lemma np_clip_id (v : Q) : 0 <= v <= 1 -> np_clip v 0 1 = v.
Proof.
  intros [H0 H1]. unfold np_clip, Qmax, Qmin.
  unfold GenericMinMax.gmax, GenericMinMax.gmin.
  destruct (v ?= 0) eqn:E0.
  - destruct (v ?= 1) eqn:E1; try reflexivity.
    apply Qgt_alt in E1. exfalso. exact (Qle_not_lt _ _ H1 E1).
  - apply Qlt_alt in E0. exfalso. exact (Qle_not_lt _ _ H0 E0).
  - destruct (v ?= 1) eqn:E1; try reflexivity.
    apply Qgt_alt in E1. exfalso. exact (Qle_not_lt _ _ H1 E1).
Qed.

Lemma normalized_unit (mn mx ci : Q) :
  mn < mx -> mn <= ci <= mx -> 0 <= normalized mn mx ci <= 1.
Proof.
  intros Hlt [Hlo Hhi]. unfold normalized.
  assert (Hpos : 0 < mx - mn).
  { unfold Qminus. now apply -> Qlt_minus_iff. }
  split.
  - apply Qle_shift_div_l; [exact Hpos|].
    rewrite Qmult_0_l. unfold Qminus. now apply -> Qle_minus_iff.
  - apply Qle_shift_div_r; [exact Hpos|].
    rewrite Qmult_1_l. unfold Qminus.
    apply Qplus_le_compat; [exact Hhi|apply Qle_refl].
Qed.

Lemma scaled_alpha_unit (base nrm : Q) :
  0 <= base <= 1 -> 0 <= nrm <= 1 -> 0 <= base * nrm <= 1.
Proof.
  intros [Hb0 Hb1] [Hn0 Hn1]. split.
  - now apply Qmult_le_0_compat.
  - setoid_replace 1 with (1 * 1) by reflexivity.
    apply Qmult_le_compat_nonneg; split; assumption.
Qed.

Lemma all_equal_bounds (c : list Q) :
  c <> [] ->
  (forall v w, In v c -> In w c -> v == w) ->
  Qeq_bool (vec_max c) (vec_min c) = true.
Proof.
  intros Hc Heq. apply Qeq_bool_iff.
  apply Heq; [apply vec_max_In|apply vec_min_In]; exact Hc.
Qed.

Lemma distinct_bounds (c : list Q) :
  (exists v w, In v c /\ In w c /\ ~ v == w) ->
  vec_min c < vec_max c.
Proof.
  intros (v & w & Hv & Hw & Hneq).
  apply Qnot_le_lt. intros Hle. apply Hneq.
  assert (Hvw : forall u, In u c -> u == vec_min c).
  { intros u Hu. apply Qle_antisym; [|now apply vec_min_le].
    apply (Qle_trans _ (vec_max c)); [apply vec_max_ge; exact Hu|exact Hle]. }
  rewrite (Hvw v Hv), (Hvw w Hw). reflexivity.
Qed.

(** C5.  With a base alpha in [[0, 1]] and consistent shapes: if the scaling
    flag is unset, or it is set and the selected entries (at least one) are
    all equal, every edge carries the base alpha; if it is set and two
    selected entries differ, the alpha of an edge is the base alpha times
    [(entry - min) / (max - min)], where [min] and [max] are the least and
    the greatest of the selected entries, and this factor lies in
    [[0, 1]]. *)
Theorem mapping_alpha_rule (self : Plot) (x y matrix : ndarray) :
  well_shaped x -> shape1 x = 2%nat ->
  well_shaped y -> shape1 y = 2%nat ->
  well_shaped matrix ->
  shape0 matrix = shape0 x -> shape1 matrix = shape0 y ->
  0 <= _alpha self <= 1 ->
  let sel := selected matrix (_threshold self) in
  let c := map (getitem2 matrix) sel in
  let mn := vec_min c in
  let mx := vec_max c in
  (_scale_alpha_by_coupling self = false ->
   _mapping self x y matrix =
   Ok (map (edge_of x y matrix (_alpha self)) sel))
  /\
  (_scale_alpha_by_coupling self = true -> c <> [] ->
   (forall v w, In v c -> In w c -> v == w) ->
   _mapping self x y matrix =
   Ok (map (edge_of x y matrix (_alpha self)) sel))
  /\
  (_scale_alpha_by_coupling self = true ->
   (exists v w, In v c /\ In w c /\ ~ v == w) ->
   In mn c /\ In mx c /\ (forall v, In v c -> mn <= v <= mx) /\ mn < mx /\
   (forall ij, In ij sel ->
      0 <= normalized mn mx (getitem2 matrix ij) <= 1) /\
   _mapping self x y matrix =
   Ok (map (fun ij =>
              edge_of x y matrix
                (_alpha self * normalized mn mx (getitem2 matrix ij)) ij)
           sel)).
Proof.
  intros Hx Hx2 Hy Hy2 Hm Hn0 Hn1 Hbase sel c mn mx.
  assert (Hval := mapping_value self x y matrix Hx Hx2 Hy Hy2 Hm Hn0 Hn1).
  cbv zeta in Hval. fold sel in Hval. fold c in Hval.
  split; [|split].
  - intros Hflag. rewrite Hval by (left; exact Hflag).
    f_equal. apply map_ext. intros ij.
    unfold coupling_alpha, edge_alpha. rewrite Hflag. simpl andb.
    now rewrite np_clip_id.
  - intros Hflag Hc Heq.
    assert (Hsel : sel <> []).
    { intros E. apply Hc. subst c. now rewrite E. }
    rewrite Hval by (right; exact Hsel).
    f_equal. apply map_ext. intros ij.
    unfold coupling_alpha, edge_alpha.
    rewrite (all_equal_bounds c Hc Heq), andb_false_r.
    now rewrite np_clip_id.
  - intros Hflag Hdiff.
    assert (Hc : c <> []).
    { destruct Hdiff as (v & _ & Hv & _). intros E. rewrite E in Hv.
      exact Hv. }
    assert (Hsel : sel <> []).
    { intros E. apply Hc. subst c. now rewrite E. }
    assert (Hlt : mn < mx) by (apply distinct_bounds; exact Hdiff).
    assert (Hb : forall v, In v c -> mn <= v <= mx).
    { intros v Hv. split; [now apply vec_min_le|now apply vec_max_ge]. }
    assert (Hn : forall ij, In ij sel ->
                 0 <= normalized mn mx (getitem2 matrix ij) <= 1).
    { intros ij Hij. apply normalized_unit; [exact Hlt|].
      apply Hb. subst c. now apply in_map. }
    repeat split; try (apply Hb; assumption); try (apply Hn; assumption).
    + now apply vec_min_In.
    + now apply vec_max_In.
    + exact Hlt.
    + rewrite Hval by (right; exact Hsel).
      f_equal. apply map_ext_in. intros ij Hij.
      unfold coupling_alpha, edge_alpha. fold mn. fold mx. rewrite Hflag.
      assert (Hne : Qeq_bool mx mn = false).
      { destruct (Qeq_bool mx mn) eqn:E; [|reflexivity].
        apply Qeq_bool_iff in E. rewrite E in Hlt.
        exfalso. exact (Qlt_irrefl _ Hlt). }
      rewrite Hne. simpl andb. cbv iota.
      change ((getitem2 matrix ij - mn) / (mx - mn))
        with (normalized mn mx (getitem2 matrix ij)).
      rewrite np_clip_id; [reflexivity|].
      apply scaled_alpha_unit; [exact Hbase|apply Hn; exact Hij].
Qed.

(** ** C3 and C4: the reduction to two dimensions *)

Section Projection.

Variable svds : ndarray -> nat -> result (ndarray * list Q * ndarray).

(** C3.  Two batches whose common embedding dimension is at most two come
    back unchanged. *)
Theorem bidimensional_identity (x y : ndarray) (d : nat) :
  shape1 x = d -> shape1 y = d -> (d <= 2)%nat ->
  bidimensional svds x y = Ok (x, y).
Proof.
  intros Hx _ Hd. unfold bidimensional.
  replace (Nat.ltb (shape1 x) 3) with true; [reflexivity|].
  symmetry. apply Nat.ltb_lt. lia.
Qed.

Lemma Forall2_map_pointwise {A B : Type} (R : B -> B -> Prop)
    (f g : A -> B) (l : list A) :
  (forall r, In r l -> R (f r) (g r)) -> Forall2 R (map f l) (map g l).
Proof.
  induction l as [|h t IH]; intros H; simpl; constructor.
  - apply H. now left.
  - apply IH. intros r Hr. apply H. now right.
Qed.

(** Scaling the columns of a two-column array by [s] is the matrix product
    with [diag(s)]. *)
Lemma mul_rows_diag (u : ndarray) (s : list Q) :
  well_shaped u -> shape1 u = 2%nat -> length s = 2%nat ->
  exists proj ud,
    mul_rows u s = Ok proj /\ matmul u (diag s) = Ok ud /\
    array_equiv proj ud /\
    shape0 proj = shape0 u /\ shape1 proj = 2%nat.
Proof.
  intros Hw Hu Hs.
  destruct s as [|s0 [|s1 [|s2 s]]]; try discriminate.
  unfold mul_rows, matmul. rewrite Hu. simpl Nat.eqb. cbv iota.
  eexists. eexists. split; [reflexivity|]. split; [reflexivity|].
  split; [|split].
  - split; [reflexivity|]. simpl rows.
    apply Forall2_map_pointwise. intros r Hr.
    unfold well_shaped in Hw. rewrite Forall_forall in Hw.
    specialize (Hw r Hr). rewrite Hu in Hw.
    destruct r as [|r0 [|r1 [|r2 r]]]; try discriminate.
    unfold diag, transpose, dot. simpl.
    repeat constructor; unfold getitem; simpl; ring.
  - unfold shape0. simpl. now rewrite length_map.
  - reflexivity.
Qed.

(** C4.  For batches [x] (n rows) and [y] (m rows) of common dimension
    [d > 2]: the argument of the SVD is the (n+m)-by-d concatenation of [x]
    and [y], the SVD is asked for [k = 2] triplets, and when it returns
    [(u, s, vt)] with [u] of shape (n+m)-by-2 and two singular values, the
    result is the pair of the first n rows and of the remaining m rows of
    an (n+m)-by-2 array equal entry by entry to [u . diag(s)]. *)
Theorem bidimensional_projection (x y u vt : ndarray) (s : list Q)
    (d : nat) :
  shape1 x = d -> shape1 y = d -> (2 < d)%nat ->
  let xy := mk_ndarray d (rows x ++ rows y) in
  svds xy 2 = Ok (u, s, vt) ->
  well_shaped u -> shape0 u = (shape0 x + shape0 y)%nat ->
  shape1 u = 2%nat -> length s = 2%nat ->
  concatenate0 x y = Ok xy /\
  shape0 xy = (shape0 x + shape0 y)%nat /\
  exists proj ud,
    matmul u (diag s) = Ok ud /\ array_equiv proj ud /\
    shape0 proj = (shape0 x + shape0 y)%nat /\ shape1 proj = 2%nat /\
    bidimensional svds x y =
      Ok (slice_to proj (shape0 x), slice_from proj (shape0 x)) /\
    rows (slice_to proj (shape0 x)) = firstn (shape0 x) (rows proj) /\
    rows (slice_from proj (shape0 x)) = skipn (shape0 x) (rows proj) /\
    shape0 (slice_to proj (shape0 x)) = shape0 x /\
    shape0 (slice_from proj (shape0 x)) = shape0 y.
Proof.
  intros Hx Hy Hd xy Hsvd Hw Hu0 Hu1 Hs.
  assert (Hcat : concatenate0 x y = Ok xy).
  { unfold concatenate0. rewrite Hx, Hy, Nat.eqb_refl. reflexivity. }
  split; [exact Hcat|].
  split; [unfold shape0, xy; simpl; apply length_app|].
  destruct (mul_rows_diag u s Hw Hu1 Hs)
    as (proj & ud & Hmul & Hmat & Heq & Hp0 & Hp1).
  exists proj, ud.
  split; [exact Hmat|]. split; [exact Heq|].
  split; [now rewrite Hp0|]. split; [exact Hp1|].
  split; [|split; [reflexivity|split; [reflexivity|]]].
  - unfold bidimensional.
    replace (Nat.ltb (shape1 x) 3) with false
      by (symmetry; apply Nat.ltb_ge; lia).
    rewrite Hcat. simpl rbind. rewrite Hsvd. simpl rbind.
    rewrite Hmul. reflexivity.
  - unfold shape0 in *. simpl.
    rewrite length_firstn, length_skipn. lia.
Qed.

End Projection.

(** ** C8: the geometry check *)

Lemma avoids_mret {A : Type} (v : A) : avoids_geometry_error (mret v).
Proof. intros self. discriminate. Qed.

Lemma avoids_gets {A : Type} (f : Plot -> A) : avoids_geometry_error (gets f).
Proof. intros self. discriminate. Qed.

Lemma avoids_modify (f : Plot -> Plot) : avoids_geometry_error (modify f).
Proof. intros self. discriminate. Qed.

Lemma avoids_mbind {A B : Type} (m : M A) (k : A -> M B) :
  avoids_geometry_error m -> (forall v, avoids_geometry_error (k v)) ->
  avoids_geometry_error (mbind m k).
Proof.
  intros Hm Hk self. unfold mbind. specialize (Hm self).
  destruct (m self) as [[v|e] self']; simpl in *; [apply Hk|].
  intros E. apply Hm. injection E as ->. reflexivity.
Qed.

Lemma avoids_mfor {A : Type} (l : list A) (body : A -> M unit) :
  (forall v, avoids_geometry_error (body v)) ->
  avoids_geometry_error (mfor l body).
Proof.
  intros Hb. induction l as [|h t IH]; simpl.
  - apply avoids_mret.
  - apply avoids_mbind; [apply Hb|intros _; exact IH].
Qed.

Lemma avoids_lift {A : Type} (r : Plot -> result A) :
  (forall self, r self <> Raise geometry_kind_error) ->
  avoids_geometry_error (lift r).
Proof. intros H self. apply H. Qed.

Lemma avoids_self_scatter (pts : ndarray) (s : list Q)
    (marker label : string) :
  avoids_geometry_error (self_scatter pts s marker label).
Proof.
  intros self. unfold self_scatter, ax_scatter.
  destruct (rows (transpose pts)) as [|xs [|ys [|zs t]]]; discriminate.
Qed.

Lemma avoids_points_set_offsets (attr : Plot -> option handle)
    (x : ndarray) :
  avoids_geometry_error (points_set_offsets attr x).
Proof.
  intros self. unfold points_set_offsets. destruct (attr self); discriminate.
Qed.

Lemma mapping_not_geometry_error (self : Plot) (x y matrix : ndarray) :
  _mapping self x y matrix <> Raise geometry_kind_error.
Proof.
  unfold _mapping.
  destruct (_scale_alpha_by_coupling self); [|discriminate].
  destruct (map (getitem2 matrix) (where_gt matrix (_threshold self)));
    discriminate.
Qed.

Section GeometryCheck.

Variable svds : ndarray -> nat -> result (ndarray * list Q * ndarray).
Variable get_cmap : string -> Q -> rgba.

(** The SVD routine raises errors of its own, not this module's. *)
Hypothesis svds_foreign :
  forall m k, svds m k <> Raise geometry_kind_error.

Lemma bidimensional_not_geometry_error (x y : ndarray) :
  bidimensional svds x y <> Raise geometry_kind_error.
Proof.
  unfold bidimensional, concatenate0.
  destruct (Nat.ltb (shape1 x) 3); [discriminate|].
  destruct (Nat.eqb (shape1 x) (shape1 y)); [|discriminate].
  simpl rbind.
  specialize (svds_foreign (mk_ndarray (shape1 x) (rows x ++ rows y)) 2%nat).
  destruct (svds _ _) as [[[u s] vt]|e]; simpl rbind; [|congruence].
  unfold mul_rows.
  destruct (Nat.eqb (shape1 u) (length s)); [discriminate|].
  destruct s as [|s0 [|s1 s]]; try discriminate;
    destruct (Nat.eqb (shape1 u) 1); discriminate.
Qed.

Lemma scatter_raises_iff (self : Plot) (ot : Transport) :
  _scatter svds self ot = Raise geometry_kind_error <->
  isinstance_PointCloud (geom ot) = false.
Proof.
  unfold _scatter. destruct (geom ot) as [x y|cm|gs]; simpl.
  - split; [|discriminate]. intros H. exfalso.
    pose proof (bidimensional_not_geometry_error x y) as Hb.
    destruct (bidimensional svds x y) as [[x' y']|e]; simpl in H;
      [discriminate|congruence].
  - split; reflexivity.
  - split; reflexivity.
Qed.

Lemma avoids_self_plot_line (l : edge) :
  avoids_geometry_error (self_plot_line get_cmap l).
Proof. intros self. discriminate. Qed.

Lemma avoids_update_line (ln : handle * edge) :
  avoids_geometry_error (update_line get_cmap ln).
Proof. intros self. discriminate. Qed.

Ltac avoid_step :=
  first
    [ apply avoids_mret | apply avoids_gets | apply avoids_modify
    | apply avoids_self_scatter | apply avoids_points_set_offsets
    | apply avoids_mfor; intros ?
    | apply avoids_self_plot_line | apply avoids_update_line
    | apply avoids_lift; intros ?; apply mapping_not_geometry_error
    | apply avoids_mbind; [|intros ?] ].

(** What follows [_scatter] in [__call__] and in [update] never raises the
    geometry error. *)
Lemma call_raises_iff (self : Plot) (ot : Transport) :
  fst (__call__ svds get_cmap ot self) = Raise geometry_kind_error <->
  isinstance_PointCloud (geom ot) = false.
Proof.
  rewrite <- (scatter_raises_iff self ot).
  unfold __call__. unfold mbind at 1. unfold lift at 1.
  destruct (_scatter svds self ot) as [[[[x y] sx] sy]|e]; simpl fst;
    [|split; intros E; injection E as ->; reflexivity].
  split; [|discriminate]. intros H. exfalso. revert H.
  match goal with |- fst (?m self) = _ -> _ =>
    assert (Ha : avoids_geometry_error m); [|exact (Ha self)] end.
  repeat avoid_step. destruct (negb _); repeat avoid_step.
Qed.

Lemma update_raises_iff (self : Plot) (ot : Transport) :
  fst (update svds get_cmap ot self) = Raise geometry_kind_error <->
  isinstance_PointCloud (geom ot) = false.
Proof.
  rewrite <- (scatter_raises_iff self ot).
  unfold update. unfold mbind at 1. unfold lift at 1.
  destruct (_scatter svds self ot) as [[[[x y] sx] sy]|e]; simpl fst;
    [|split; intros E; injection E as ->; reflexivity].
  split; [|discriminate]. intros H. exfalso. revert H.
  match goal with |- fst (?m self) = _ -> _ =>
    assert (Ha : avoids_geometry_error m); [|exact (Ha self)] end.
  repeat avoid_step. destruct (negb _); repeat avoid_step.
Qed.

(** C8.  [_scatter], and with it [__call__] and [update], raises the
    geometry error exactly when [ot.geom] is not a [PointCloud]. *)
Theorem geometry_error_iff_not_pointcloud (self : Plot) (ot : Transport) :
  (_scatter svds self ot = Raise geometry_kind_error <->
   isinstance_PointCloud (geom ot) = false) /\
  (fst (__call__ svds get_cmap ot self) = Raise geometry_kind_error <->
   isinstance_PointCloud (geom ot) = false) /\
  (fst (update svds get_cmap ot self) = Raise geometry_kind_error <->
   isinstance_PointCloud (geom ot) = false).
Proof.
  split; [apply scatter_raises_iff|].
  split; [apply call_raises_iff|apply update_raises_iff].
Qed.

End GeometryCheck.

(** ** Scatters of two-column arrays *)

Lemma transpose_two_columns (x : ndarray) :
  shape1 x = 2%nat -> rows (transpose x) = [column x 0; column x 1].
Proof. intros H. unfold transpose. simpl. rewrite H. reflexivity. Qed.

(** ** C7: marker sizes *)

Section MarkerSizes.

Variable svds : ndarray -> nat -> result (ndarray * list Q * ndarray).

(** C7.  [_scatter] returns the sizes [w * scale * n] for each of the two
    weight vectors, [n] being the length of the vector; [_barycenters]
    passes the sizes [w / (min(w) / scale)] to its two [scatter] calls,
    [min(w)] being the least weight of the (non-empty) vector. *)
Theorem marker_sizes (self : Plot) (ot : Transport) (x y x' y' : ndarray)
    (axes : Axes) (pts : ndarray) (wa wb : list Q) (m : ndarray)
    (scale : Q) :
  (geom ot = PointCloud x y -> bidimensional svds x y = Ok (x', y') ->
   _scatter svds self ot =
   Ok (x', y',
       map (fun w => w * _scale self * Q_of_nat (length (a ot))) (a ot),
       map (fun w => w * _scale self * Q_of_nat (length (b ot))) (b ot)))
  /\
  (wa <> [] -> wb <> [] ->
   shape1 pts = 2%nat -> shape1 m = shape0 pts -> length wa = shape0 m ->
   In (vec_min wa) wa /\ (forall w, In w wa -> vec_min wa <= w) /\
   In (vec_min wb) wb /\ (forall w, In w wb -> vec_min wb <= w) /\
   exists tx,
     _barycenters axes pts wa wb m scale =
     (Ok tt,
      mk_Axes (artists axes
               ++ [PathCollection (scatter_offsets pts)
                     (map (fun w => w / (vec_min wb / scale)) wb)
                     "k" "X" "y";
                   PathCollection (scatter_offsets tx)
                     (map (fun w => w / (vec_min wa / scale)) wa)
                     "k" "X" "T(x)"])
              (Some 15))).
Proof.
  split.
  - intros Hg Hb. unfold _scatter. rewrite Hg. simpl. rewrite Hb. reflexivity.
  - intros Ha Hb Hp Hm Hl.
    split; [now apply vec_min_In|]. split; [intros w; apply vec_min_le|].
    split; [now apply vec_min_In|]. split; [intros w; apply vec_min_le|].
    unfold _barycenters.
    rewrite (jnp_min_nonempty wa Ha), (jnp_min_nonempty wb Hb). simpl rbind.
    rewrite (transpose_two_columns pts Hp).
    unfold ax_scatter at 1. cbv iota beta.
    unfold matmul. rewrite Hm, Nat.eqb_refl. simpl rbind.
    unfold scale_rows_inv. unfold shape0 at 1. simpl rows at 1.
    rewrite length_map. fold (shape0 m). rewrite Hl, Nat.eqb_refl.
    match goal with
    | |- context [transpose ?t] => set (tx := t)
    end.
    rewrite (transpose_two_columns tx) by (subst tx; simpl; exact Hp).
    exists tx. unfold add_artist, ax_scatter, ax_legend. simpl.
    now rewrite <- app_assoc.
Qed.

End MarkerSizes.

(** ** C9: default weights of [barycentric_projections] *)

(** C9.  On a raw array with a matrix, a missing [a] is replaced by the
    vector of [matrix.shape[0]] entries [1 / matrix.shape[0]], a missing
    [b] by the vector of [matrix.shape[1]] entries [1 / matrix.shape[1]],
    and the resulting vectors are the weights [_barycenters] receives. *)
Theorem default_weights_uniform (pts : ndarray) (wa wb : option (list Q))
    (m : ndarray) (axes : option Axes) (kwargs : option Q) :
  let n0 := shape0 m in
  let n1 := shape1 m in
  uniform n0 = repeat (1 / Q_of_nat n0) n0 /\
  uniform n1 = repeat (1 / Q_of_nat n1) n1 /\
  barycentric_projections (ArrayArg pts) wa wb (Some m) axes kwargs =
  _barycenters
    (match axes with None => empty_axes | Some ax0 => ax0 end) pts
    (match wa with None => repeat (1 / Q_of_nat n0) n0 | Some w => w end)
    (match wb with None => repeat (1 / Q_of_nat n1) n1 | Some w => w end)
    m
    (match kwargs with None => 200 | Some s => s end).
Proof.
  intros n0 n1.
  assert (Hu : forall n, uniform n = repeat (1 / Q_of_nat n) n).
  { intros n. unfold uniform. now rewrite map_repeat. }
  split; [apply Hu|]. split; [apply Hu|].
  unfold barycentric_projections. rewrite !Hu. reflexivity.
Qed.

(** * The statements on sample inputs *)

(** The sample coupling with threshold [-1]: all six entries are selected
    and six edges come back. *)
Lemma mapping_edges_row_major_witness :
  exists edges,
    _mapping (sample_plot true true (-1) (7 # 10))
             sample_x sample_y sample_matrix = Ok edges /\
    length edges = 6%nat.
Proof.
  destruct (mapping_edges_row_major (sample_plot true true (-1) (7 # 10))
              sample_x sample_y sample_matrix)
    as (_ & _ & edges & Hm & Hlen & _).
  - repeat constructor.
  - reflexivity.
  - repeat constructor.
  - reflexivity.
  - repeat constructor.
  - reflexivity.
  - reflexivity.
  - right. vm_compute. discriminate.
  - exists edges. split; [exact Hm|exact Hlen].
Defined.

(** C1 as stated fails.  With one source point [(1, 2)], one target point
    [(3, 4)] and the coupling [[1]] above the threshold [0], the tuple
    returned has [start = (1, 3)] and [end = (2, 4)]: it is not the tuple
    with [start = x[0]] and [end = y[0]], whatever its alpha. *)
Lemma mapping_start_end_are_not_the_points :
  _mapping (sample_plot true false 0 (7 # 10))
           single_x single_y (single_matrix 1)
  = Ok [mk_edge (1, 3) (2, 4) 1 (7 # 10)]
  /\ ~ (exists alphas,
          _mapping (sample_plot true false 0 (7 # 10))
                   single_x single_y (single_matrix 1)
          = Ok (map (fun p => point_to_point_edge single_x single_y
                                (single_matrix 1) (snd p) (fst p))
                    (combine (selected (single_matrix 1) 0) alphas))).
Proof.
  split; [vm_compute; reflexivity|].
  intros [[|al alphas] H]; vm_compute in H; discriminate H.
Qed.

(** The coupling [[0]] with threshold [0] and alpha scaling on: nothing is
    selected and [jnp.min] raises. *)
Lemma mapping_nothing_selected_witness :
  _mapping (sample_plot true true 0 (7 # 10))
           single_x single_y (single_matrix 0)
  = Raise zero_size_min
  /\ _mapping (sample_plot true false 0 (7 # 10))
              single_x single_y (single_matrix 0)
     = Ok [].
Proof.
  assert (Hnone : forall i j : nat,
            (i < shape0 (single_matrix 0))%nat ->
            (j < shape1 (single_matrix 0))%nat ->
            ~ 0 < getitem2 (single_matrix 0) (i, j)).
  { intros i j Hi Hj. unfold shape0 in Hi. simpl in Hi, Hj.
    destruct i as [|i]; [|lia]. destruct j as [|j]; [|lia].
    vm_compute. discriminate. }
  split.
  - apply (mapping_nothing_selected (sample_plot true true 0 (7 # 10))
             single_x single_y (single_matrix 0)).
    + repeat constructor.
    + exact Hnone.
  - apply (mapping_nothing_selected (sample_plot true false 0 (7 # 10))
             single_x single_y (single_matrix 0)).
    + repeat constructor.
    + exact Hnone.
Defined.

(** Two-dimensional sample points come back unchanged. *)
Lemma bidimensional_identity_witness :
  bidimensional sample_svds sample_x sample_y = Ok (sample_x, sample_y).
Proof.
  apply (bidimensional_identity sample_svds sample_x sample_y 2).
  - reflexivity.
  - reflexivity.
  - lia.
Defined.

(** The three spatial points are projected on the two leading singular
    directions of [diag(3, 2, 1)]. *)
Lemma bidimensional_projection_witness :
  exists proj ud,
    matmul (mk_ndarray 2 [[0; 1]; [1; 0]; [0; 0]]) (diag [2; 3]) = Ok ud /\
    array_equiv proj ud /\
    bidimensional sample_svds spatial_x spatial_y =
    Ok (slice_to proj 1, slice_from proj 1).
Proof.
  destruct (bidimensional_projection sample_svds spatial_x spatial_y
              (mk_ndarray 2 [[0; 1]; [1; 0]; [0; 0]])
              (mk_ndarray 3 [[0; 1; 0]; [1; 0; 0]]) [2; 3] 3)
    as (_ & _ & proj & ud & Hm & He & _ & _ & Hb & _).
  - reflexivity.
  - reflexivity.
  - lia.
  - reflexivity.
  - repeat constructor.
  - reflexivity.
  - reflexivity.
  - reflexivity.
  - exists proj, ud. split; [exact Hm|]. split; [exact He|exact Hb].
Defined.

(** On the sample coupling with scaling on, the alpha of an edge is the base
    alpha times the normalised entry; with scaling off it is the base
    alpha. *)
Lemma mapping_alpha_rule_witness :
  let sel := selected sample_matrix (-1) in
  let c := map (getitem2 sample_matrix) sel in
  _mapping (sample_plot true true (-1) (7 # 10))
           sample_x sample_y sample_matrix
  = Ok (map (fun ij =>
               edge_of sample_x sample_y sample_matrix
                 ((7 # 10) * normalized (vec_min c) (vec_max c)
                               (getitem2 sample_matrix ij)) ij)
            sel)
  /\ _mapping (sample_plot true false (-1) (7 # 10))
              sample_x sample_y sample_matrix
     = Ok (map (edge_of sample_x sample_y sample_matrix (7 # 10)) sel).
Proof.
  split.
  - destruct (mapping_alpha_rule (sample_plot true true (-1) (7 # 10))
                sample_x sample_y sample_matrix)
      as (_ & _ & H).
    + repeat constructor.
    + reflexivity.
    + repeat constructor.
    + reflexivity.
    + repeat constructor.
    + reflexivity.
    + reflexivity.
    + split; discriminate.
    + apply H; [reflexivity|].
      exists (9 # 10), 0. split; [simpl; auto|]. split; [simpl; auto|].
      discriminate.
  - destruct (mapping_alpha_rule (sample_plot true false (-1) (7 # 10))
                sample_x sample_y sample_matrix)
      as (H & _).
    + repeat constructor.
    + reflexivity.
    + repeat constructor.
    + reflexivity.
    + repeat constructor.
    + reflexivity.
    + reflexivity.
    + split; discriminate.
    + apply H. reflexivity.
Defined.

(** A coupling holding [10^9]: four edges, each alpha within [[0, 1]]. *)
Lemma mapping_alpha_clipped_witness :
  exists edges,
    _mapping (sample_plot true true 0 (7 # 10))
             sample_x sample_y large_matrix = Ok edges /\
    length edges = 4%nat /\
    Forall (fun e => 0 <= alpha e <= 1) edges.
Proof.
  eexists. split; [vm_compute; reflexivity|]. split; [reflexivity|].
  apply (mapping_alpha_clipped (sample_plot true true 0 (7 # 10))
           sample_x sample_y large_matrix).
  vm_compute. reflexivity.
Defined.

(** Marker sizes on the sample transport: [w * 200 * n] in [_scatter],
    [w / (min(w) / 200)] in [_barycenters]. *)
Lemma marker_sizes_witness :
  _scatter sample_svds (sample_plot true false (-1) (7 # 10)) sample_ot =
  Ok (sample_x, sample_y,
      map (fun w => w * 200 * Q_of_nat 3) sample_a,
      map (fun w => w * 200 * Q_of_nat 2) sample_b)
  /\ exists tx,
       _barycenters empty_axes sample_y sample_a sample_b sample_matrix 200 =
       (Ok tt,
        mk_Axes [PathCollection (scatter_offsets sample_y)
                   (map (fun w => w / (vec_min sample_b / 200)) sample_b)
                   "k" "X" "y";
                 PathCollection (scatter_offsets tx)
                   (map (fun w => w / (vec_min sample_a / 200)) sample_a)
                   "k" "X" "T(x)"]
                (Some 15)).
Proof.
  destruct (marker_sizes sample_svds (sample_plot true false (-1) (7 # 10))
              sample_ot sample_x sample_y sample_x sample_y
              empty_axes sample_y sample_a sample_b sample_matrix 200)
    as [Hs Hb].
  split.
  - apply Hs; reflexivity.
  - destruct Hb as (_ & _ & _ & _ & tx & Htx).
    + discriminate.
    + discriminate.
    + reflexivity.
    + reflexivity.
    + reflexivity.
    + exists tx. exact Htx.
Defined.

Lemma sample_svds_foreign (m : ndarray) (k : nat) :
  sample_svds m k <> Raise geometry_kind_error.
Proof.
  unfold sample_svds. destruct (_ && _); discriminate.
Qed.

(** A bare cost matrix is refused by all three methods; the sample point
    cloud is not. *)
Lemma geometry_error_iff_not_pointcloud_witness :
  _scatter sample_svds (sample_plot true false (-1) (7 # 10)) cost_ot
  = Raise geometry_kind_error
  /\ fst (__call__ sample_svds sample_cmap cost_ot
            (sample_plot true false (-1) (7 # 10)))
     = Raise geometry_kind_error
  /\ fst (update sample_svds sample_cmap cost_ot drawn_plot)
     = Raise geometry_kind_error
  /\ fst (__call__ sample_svds sample_cmap sample_ot
            (sample_plot true false (-1) (7 # 10)))
     <> Raise geometry_kind_error.
Proof.
  destruct (geometry_error_iff_not_pointcloud sample_svds sample_cmap
              sample_svds_foreign
              (sample_plot true false (-1) (7 # 10)) cost_ot)
    as ([_ Hs] & [_ Hc] & _).
  destruct (geometry_error_iff_not_pointcloud sample_svds sample_cmap
              sample_svds_foreign drawn_plot cost_ot)
    as (_ & _ & [_ Hu]).
  destruct (geometry_error_iff_not_pointcloud sample_svds sample_cmap
              sample_svds_foreign
              (sample_plot true false (-1) (7 # 10)) sample_ot)
    as (_ & [Hp _] & _).
  split; [apply Hs; reflexivity|].
  split; [apply Hc; reflexivity|].
  split; [apply Hu; reflexivity|].
  intros H. apply Hp in H. discriminate H.
Defined.

(** ** The scenarios of the specification, evaluated *)

(** An entry equal to the threshold is not selected. *)
Example where_gt_boundary :
  where_gt (mk_ndarray 2 [[0; 1 # 2]]) 0 = [(0%nat, 1%nat)].
Proof. reflexivity. Qed.

(** Three by two coupling, threshold [-1]: every entry is selected, row by
    row. *)
Example where_gt_sample :
  where_gt sample_matrix (-1) =
  [(0, 0); (0, 1); (1, 0); (1, 1); (2, 0); (2, 1)]%nat.
Proof. reflexivity. Qed.

(** The dominant entry carries the largest strength, and with scaling on
    the whole base alpha. *)
Example mapping_dominant_edge :
  match _mapping (sample_plot true true (-1) (7 # 10))
                 sample_x sample_y sample_matrix with
  | Ok (e :: rest) =>
      Qeq_bool (alpha e) (7 # 10) = true /\
      forallb (fun e' => Qle_bool (strength e') (strength e)
                         && Qle_bool (alpha e') (alpha e)) rest = true
  | _ => False
  end.
Proof. vm_compute. split; reflexivity. Qed.

(** The projection of the three spatial points. *)
Example bidimensional_spatial :
  bidimensional sample_svds spatial_x spatial_y =
  Ok (mk_ndarray 2 [[0; 3]], mk_ndarray 2 [[2; 0]; [0; 0]]).
Proof. vm_compute. reflexivity. Qed.

(** * Further properties of the code *)

(** ** [_mapping]: what the edges draw *)

(** X1.  For consistent shapes, the segment drawn for the selected pair
    [(i, j)] runs from the point [x[i]] to the point [y[j]]. *)
Theorem mapping_segments_join_points (self : Plot) (x y matrix : ndarray) :
  well_shaped x -> shape1 x = 2%nat ->
  well_shaped y -> shape1 y = 2%nat ->
  well_shaped matrix ->
  shape0 matrix = shape0 x -> shape1 matrix = shape0 y ->
  _scale_alpha_by_coupling self = false
  \/ selected matrix (_threshold self) <> [] ->
  exists edges,
    _mapping self x y matrix = Ok edges /\
    map segment edges =
    map (fun ij => (point (getrow x (fst ij)), point (getrow y (snd ij))))
        (selected matrix (_threshold self)).
Proof.
  intros Hx Hx2 Hy Hy2 Hm Hn0 Hn1 Hne.
  eexists. split.
  - apply mapping_value; assumption.
  - rewrite map_map. apply map_ext. intros ij. reflexivity.
Qed.

Lemma filter_all {A : Type} (f : A -> bool) (l : list A) :
  (forall v, In v l -> f v = true) -> filter f l = l.
Proof.
  induction l as [|h t IH]; intros H; simpl; [reflexivity|].
  rewrite (H h) by now left. f_equal. apply IH. intros v Hv. apply H. now right.
Qed.

(** X2.  When every entry of the matrix is above the threshold (as with the
    default threshold [-1] on a non-negative coupling), every index pair is
    selected and an n-by-m matrix yields [n * m] edges. *)
Theorem mapping_all_entries (self : Plot) (x y matrix : ndarray) :
  well_shaped x -> shape1 x = 2%nat ->
  well_shaped y -> shape1 y = 2%nat ->
  well_shaped matrix ->
  shape0 matrix = shape0 x -> shape1 matrix = shape0 y ->
  (forall i j, (i < shape0 matrix)%nat -> (j < shape1 matrix)%nat ->
     _threshold self < getitem2 matrix (i, j)) ->
  _scale_alpha_by_coupling self = false
  \/ (0 < shape0 matrix * shape1 matrix)%nat ->
  selected matrix (_threshold self) =
    index_pairs (shape0 matrix) (shape1 matrix) /\
  exists edges,
    _mapping self x y matrix = Ok edges /\
    length edges = (shape0 matrix * shape1 matrix)%nat.
Proof.
  intros Hx Hx2 Hy Hy2 Hm Hn0 Hn1 Hall Hne.
  assert (Hsel : selected matrix (_threshold self) =
                 index_pairs (shape0 matrix) (shape1 matrix)).
  { unfold selected. apply filter_all. intros [i j] Hin.
    unfold index_pairs in Hin. apply in_prod_iff in Hin.
    rewrite !in_seq in Hin. apply Qgtb_lt. apply Hall; lia. }
  assert (Hlen : length (selected matrix (_threshold self)) =
                 (shape0 matrix * shape1 matrix)%nat).
  { rewrite Hsel. unfold index_pairs. now rewrite length_prod, !length_seq. }
  split; [exact Hsel|].
  eexists. split.
  - apply mapping_value; try assumption.
    destruct Hne as [Hf|Hpos]; [now left|right].
    intros E. rewrite E in Hlen. simpl in Hlen. lia.
  - now rewrite length_map.
Qed.

Lemma subseq_refl {A : Type} (l : list A) : subseq l l.
Proof. induction l; constructor; assumption. Qed.

Lemma subseq_filter {A : Type} (f g : A -> bool) (l : list A) :
  (forall v, g v = true -> f v = true) ->
  subseq (filter g l) (filter f l).
Proof.
  intros Himp. induction l as [|h t IH]; simpl; [constructor|].
  destruct (g h) eqn:Eg.
  - rewrite (Himp h Eg). now constructor.
  - destruct (f h); [now constructor|exact IH].
Qed.

Lemma subseq_map {A B : Type} (f : A -> B) (l1 l2 : list A) :
  subseq l1 l2 -> subseq (map f l1) (map f l2).
Proof. induction 1; simpl; constructor; assumption. Qed.

Lemma subseq_length {A : Type} (l1 l2 : list A) :
  subseq l1 l2 -> (length l1 <= length l2)%nat.
Proof. induction 1; simpl; lia. Qed.

Lemma coupling_alpha_unscaled (self : Plot) (c : list Q) (ci : Q) :
  _scale_alpha_by_coupling self = false ->
  coupling_alpha self c ci = np_clip (_alpha self) 0 1.
Proof. intros H. unfold coupling_alpha, edge_alpha. now rewrite H. Qed.

(** X3.  Without alpha scaling, raising the threshold only drops edges: the
    list returned for the higher threshold is the list returned for the
    lower one with some tuples left out. *)
Theorem mapping_threshold_monotone (lo hi : Plot) (x y matrix : ndarray) :
  well_shaped x -> shape1 x = 2%nat ->
  well_shaped y -> shape1 y = 2%nat ->
  well_shaped matrix ->
  shape0 matrix = shape0 x -> shape1 matrix = shape0 y ->
  _scale_alpha_by_coupling lo = false ->
  _scale_alpha_by_coupling hi = false ->
  _alpha lo = _alpha hi ->
  _threshold lo <= _threshold hi ->
  exists edges_lo edges_hi,
    _mapping lo x y matrix = Ok edges_lo /\
    _mapping hi x y matrix = Ok edges_hi /\
    subseq edges_hi edges_lo /\
    (length edges_hi <= length edges_lo)%nat.
Proof.
  intros Hx Hx2 Hy Hy2 Hm Hn0 Hn1 Flo Fhi Ha Ht.
  eexists. eexists.
  split; [apply mapping_value; try assumption; now left|].
  split; [apply mapping_value; try assumption; now left|].
  assert (Hs : subseq
    (map (fun ij => edge_of x y matrix
            (coupling_alpha hi
               (map (getitem2 matrix) (selected matrix (_threshold hi)))
               (getitem2 matrix ij)) ij)
         (selected matrix (_threshold hi)))
    (map (fun ij => edge_of x y matrix
            (coupling_alpha lo
               (map (getitem2 matrix) (selected matrix (_threshold lo)))
               (getitem2 matrix ij)) ij)
         (selected matrix (_threshold lo)))).
  { rewrite (map_ext _ (edge_of x y matrix (np_clip (_alpha hi) 0 1)))
      by (intros ij; now rewrite coupling_alpha_unscaled).
    rewrite (map_ext (fun ij => edge_of x y matrix (coupling_alpha lo _ _) ij)
                     (edge_of x y matrix (np_clip (_alpha hi) 0 1)))
      by (intros ij; rewrite coupling_alpha_unscaled by exact Flo;
          now rewrite Ha).
    apply subseq_map. unfold selected. apply subseq_filter.
    intros ij Hij. apply Qgtb_lt. apply Qgtb_lt in Hij.
    eapply Qle_lt_trans; [exact Ht|exact Hij]. }
  split; [exact Hs|]. apply subseq_length, Hs.
Qed.

(** ** [_mapping]: alpha and strength as functions of the coupling *)

Lemma np_clip_monotone (v w : Q) :
  v <= w -> np_clip v 0 1 <= np_clip w 0 1.
Proof.
  intros H. unfold np_clip.
  apply Q.min_le_compat_r, Q.max_le_compat_r, H.
Qed.

Lemma Q_of_nat_nonneg (n : nat) : 0 <= Q_of_nat n.
Proof.
  unfold Q_of_nat, Qle. simpl. lia.
Qed.

Lemma vec_min_le_max (c : list Q) : vec_min c <= vec_max c.
Proof.
  destruct c as [|h t]; [apply Qle_refl|].
  apply (Qle_trans _ h); [apply vec_min_le|apply vec_max_ge]; now left.
Qed.

Lemma normalized_monotone (mn mx v w : Q) :
  mn <= mx -> v <= w -> normalized mn mx v <= normalized mn mx w.
Proof.
  intros Hb Hvw. unfold normalized, Qdiv.
  apply Qmult_le_compat_r.
  - unfold Qminus. apply Qplus_le_compat; [exact Hvw|apply Qle_refl].
  - apply Qinv_le_0_compat. unfold Qminus. now apply -> Qle_minus_iff.
Qed.

Lemma coupling_alpha_monotone (self : Plot) (c : list Q) (v w : Q) :
  0 <= _alpha self -> v <= w ->
  coupling_alpha self c v <= coupling_alpha self c w.
Proof.
  intros Hb Hvw. unfold coupling_alpha, edge_alpha.
  apply np_clip_monotone.
  destruct (_scale_alpha_by_coupling self && _); [|apply Qle_refl].
  rewrite !(Qmult_comm (_alpha self)).
  apply Qmult_le_compat_r; [|exact Hb].
  apply (normalized_monotone (vec_min c) (vec_max c) v w);
    [apply vec_min_le_max|exact Hvw].
Qed.

(** X4.  With a non-negative base alpha, a larger coupling entry never gets
    a smaller strength nor a smaller alpha: for two selected pairs whose
    entries are ordered, the strengths and the alphas of their tuples are
    ordered the same way, with or without alpha scaling. *)
Theorem mapping_monotone_in_coupling (self : Plot) (x y matrix : ndarray) :
  well_shaped x -> shape1 x = 2%nat ->
  well_shaped y -> shape1 y = 2%nat ->
  well_shaped matrix ->
  shape0 matrix = shape0 x -> shape1 matrix = shape0 y ->
  _scale_alpha_by_coupling self = false
  \/ selected matrix (_threshold self) <> [] ->
  0 <= _alpha self ->
  exists tuple : nat * nat -> edge,
    _mapping self x y matrix =
      Ok (map tuple (selected matrix (_threshold self))) /\
    forall ij kl,
      getitem2 matrix ij <= getitem2 matrix kl ->
      strength (tuple ij) <= strength (tuple kl) /\
      alpha (tuple ij) <= alpha (tuple kl).
Proof.
  intros Hx Hx2 Hy Hy2 Hm Hn0 Hn1 Hne Hb.
  eexists. split; [apply mapping_value; assumption|].
  intros ij kl Hle. simpl. split.
  - rewrite !(Qmult_comm (Q_of_nat _)).
    apply Qmult_le_compat_r; [exact Hle|apply Q_of_nat_nonneg].
  - now apply coupling_alpha_monotone.
Qed.

Lemma normalized_at_max (mn mx v : Q) :
  mn < mx -> v == mx -> normalized mn mx v == 1.
Proof.
  intros Hlt Hv. unfold normalized. rewrite Hv. field.
  intros E. apply (Qlt_irrefl mn).
  setoid_replace mn with mx at 2; [exact Hlt|].
  setoid_replace mn with (mx - (mx - mn)) by ring. rewrite E. ring.
Qed.

Lemma normalized_at_min (mn mx v : Q) :
  v == mn -> normalized mn mx v == 0.
Proof.
  intros Hv. unfold normalized. rewrite Hv.
  unfold Qdiv. setoid_replace (mn - mn) with 0 by ring. ring.
Qed.

(** X5.  With alpha scaling on, a base alpha in [[0, 1]] and two selected
    entries that differ: the tuples of the greatest selected entry carry the
    whole base alpha, those of the least selected entry are fully
    transparent. *)
Theorem mapping_alpha_extremes (self : Plot) (x y matrix : ndarray) :
  well_shaped x -> shape1 x = 2%nat ->
  well_shaped y -> shape1 y = 2%nat ->
  well_shaped matrix ->
  shape0 matrix = shape0 x -> shape1 matrix = shape0 y ->
  0 <= _alpha self <= 1 ->
  _scale_alpha_by_coupling self = true ->
  let sel := selected matrix (_threshold self) in
  let c := map (getitem2 matrix) sel in
  (exists v w, In v c /\ In w c /\ ~ v == w) ->
  exists tuple : nat * nat -> edge,
    _mapping self x y matrix = Ok (map tuple sel) /\
    (exists ij, In ij sel /\ alpha (tuple ij) == _alpha self) /\
    (exists ij, In ij sel /\ alpha (tuple ij) == 0) /\
    forall ij, In ij sel ->
      (getitem2 matrix ij == vec_max c -> alpha (tuple ij) == _alpha self) /\
      (getitem2 matrix ij == vec_min c -> alpha (tuple ij) == 0).
Proof.
  intros Hx Hx2 Hy Hy2 Hm Hn0 Hn1 Hbase Hflag sel c Hdiff.
  assert (Hc : c <> []).
  { destruct Hdiff as (v & _ & Hv & _). intros E. rewrite E in Hv. exact Hv. }
  assert (Hsel : sel <> []).
  { intros E. apply Hc. subst c. now rewrite E. }
  assert (Hlt : vec_min c < vec_max c) by (apply distinct_bounds, Hdiff).
  assert (Hne : Qeq_bool (vec_max c) (vec_min c) = false).
  { destruct (Qeq_bool (vec_max c) (vec_min c)) eqn:E; [|reflexivity].
    apply Qeq_bool_iff in E. rewrite E in Hlt.
    exfalso. exact (Qlt_irrefl _ Hlt). }
  assert (Hal : forall ij, In ij sel ->
            coupling_alpha self c (getitem2 matrix ij) =
            _alpha self
            * normalized (vec_min c) (vec_max c) (getitem2 matrix ij)).
  { intros ij Hij. unfold coupling_alpha, edge_alpha.
    rewrite Hflag, Hne. simpl andb. cbv iota.
    change ((getitem2 matrix ij - vec_min c) / (vec_max c - vec_min c))
      with (normalized (vec_min c) (vec_max c) (getitem2 matrix ij)).
    apply np_clip_id, scaled_alpha_unit; [exact Hbase|].
    apply normalized_unit; [exact Hlt|].
    split; [apply vec_min_le|apply vec_max_ge]; subst c; now apply in_map. }
  assert (Hext : forall ij, In ij sel ->
            (getitem2 matrix ij == vec_max c ->
             coupling_alpha self c (getitem2 matrix ij) == _alpha self) /\
            (getitem2 matrix ij == vec_min c ->
             coupling_alpha self c (getitem2 matrix ij) == 0)).
  { intros ij Hij. rewrite (Hal ij Hij). split; intros E.
    - rewrite (normalized_at_max _ _ _ Hlt E). ring.
    - rewrite (normalized_at_min _ _ _ E). ring. }
  eexists. split; [apply mapping_value; try assumption; now right|].
  fold sel. fold c. simpl.
  split; [|split; [|exact Hext]].
  - destruct (proj1 (in_map_iff _ _ _) (vec_max_In c Hc)) as (ij & E & Hij).
    exists ij. split; [exact Hij|].
    apply (proj1 (Hext ij Hij)). rewrite E. reflexivity.
  - destruct (proj1 (in_map_iff _ _ _) (vec_min_In c Hc)) as (ij & E & Hij).
    exists ij. split; [exact Hij|].
    apply (proj2 (Hext ij Hij)). rewrite E. reflexivity.
Qed.

(** X6.  Without alpha scaling, a base alpha outside [[0, 1]] is cut back:
    every tuple gets alpha [1] when the base alpha is at least [1], and
    alpha [0] when it is at most [0]. *)
Theorem mapping_base_alpha_cut (self : Plot) (x y matrix : ndarray)
    (edges : list edge) :
  _scale_alpha_by_coupling self = false ->
  _mapping self x y matrix = Ok edges ->
  (1 <= _alpha self -> Forall (fun e => alpha e == 1) edges) /\
  (_alpha self <= 0 -> Forall (fun e => alpha e == 0) edges).
Proof.
  intros Hflag H. unfold _mapping in H. rewrite Hflag in H. simpl in H.
  injection H as <-.
  split; intros Hb; apply Forall_map, Forall_forall; intros k _; simpl;
    unfold np_clip.
  - rewrite (Q.max_l (_alpha self) 0)
      by (apply (Qle_trans _ 1); [discriminate|exact Hb]).
    now apply Q.min_r.
  - rewrite (Q.max_r (_alpha self) 0) by exact Hb.
    apply Q.min_l. discriminate.
Qed.

(** ** [__call__] and [update]: what is drawn and what is returned *)

Lemma mapping_reads_settings (s s' : Plot) (x y matrix : ndarray) :
  same_config s s' -> _mapping s' x y matrix = _mapping s x y matrix.
Proof.
  intros (_ & Ht & _ & _ & Hf & Ha). unfold _mapping.
  rewrite Ht, Hf.
  destruct (_scale_alpha_by_coupling s); unfold rbind.
  - destruct (jnp_min _) as [mn|e]; [|reflexivity].
    destruct (jnp_max _) as [mx|e]; [|reflexivity].
    f_equal. apply map_ext. intros k. unfold mapping_step. now rewrite Ha.
  - f_equal. apply map_ext. intros k. unfold mapping_step. now rewrite Ha.
Qed.

(** One step of a method, by the kind of its first statement. *)
Lemma mbind_lift {A B : Type} (r : Plot -> result A) (k : A -> M B)
    (self : Plot) (v : A) :
  r self = Ok v -> mbind (lift r) k self = k v self.
Proof. intros H. unfold mbind, lift. now rewrite H. Qed.

Lemma mbind_lift_raise {A B : Type} (r : Plot -> result A) (k : A -> M B)
    (self : Plot) (e : exn) :
  r self = Raise e -> mbind (lift r) k self = (Raise e, self).
Proof. intros H. unfold mbind, lift. now rewrite H. Qed.

Lemma mbind_gets {A B : Type} (f : Plot -> A) (k : A -> M B) (self : Plot) :
  mbind (gets f) k self = k (f self) self.
Proof. reflexivity. Qed.

Lemma mbind_modify {B : Type} (f : Plot -> Plot) (k : unit -> M B)
    (self : Plot) :
  mbind (modify f) k self = k tt (f self).
Proof. reflexivity. Qed.

Lemma mbind_ok {A B : Type} (m : M A) (k : A -> M B) (self s' : Plot)
    (v : A) :
  m self = (Ok v, s') -> mbind m k self = k v s'.
Proof. intros H. unfold mbind. now rewrite H. Qed.

Lemma mbind_raise {A B : Type} (m : M A) (k : A -> M B) (self s' : Plot)
    (e : exn) :
  m self = (Raise e, s') -> mbind m k self = (Raise e, s').
Proof. intros H. unfold mbind. now rewrite H. Qed.

(** A scatter of a two-column array succeeds and appends one artist. *)
Lemma self_scatter_two_columns (pts : ndarray) (s : list Q)
    (marker label : string) (self : Plot) :
  shape1 pts = 2%nat ->
  self_scatter pts s marker label self =
  (Ok (length (artists (ax self))),
   set_ax (mk_Axes (artists (ax self)
                    ++ [PathCollection (scatter_offsets pts) s "k"
                                       marker label])
                   (legend_fontsize (ax self)))
          self).
Proof.
  intros H. unfold self_scatter. rewrite (transpose_two_columns pts H).
  reflexivity.
Qed.

Section Drawing.

Variable svds : ndarray -> nat -> result (ndarray * list Q * ndarray).
Variable get_cmap : string -> Q -> rgba.

(** The loop that plots one line per edge appends the lines to the axes and
    their handles, the next free positions, to [_lines]. *)
Lemma mfor_plot_lines (lines : list edge) (self : Plot) :
  mfor lines (self_plot_line get_cmap) self =
  (Ok tt,
   set_lines (_lines self
              ++ seq (length (artists (ax self))) (length lines))
     (set_ax (mk_Axes (artists (ax self)
                       ++ map (line_of_edge (get_cmap (_cmap self))) lines)
                      (legend_fontsize (ax self)))
             self)).
Proof.
  revert self. induction lines as [|l t IH]; intros self.
  - destruct self as [[arts leg] sh ls px py th sc cm fl al].
    unfold mfor, mret, set_lines, set_ax. cbn [map length seq ax artists
      legend_fontsize _lines _show_lines _points_x _points_y _threshold
      _scale _cmap _scale_alpha_by_coupling _alpha].
    now rewrite !app_nil_r.
  - cbn [mfor]. unfold mbind. unfold self_plot_line at 1.
    unfold ax_plot, add_artist. rewrite IH.
    unfold set_lines, set_ax.
    cbn [map length seq ax artists legend_fontsize _lines _show_lines
         _points_x _points_y _threshold _scale _cmap
         _scale_alpha_by_coupling _alpha].
    rewrite <- !app_assoc, length_app. cbn [length app].
    rewrite Nat.add_1_r. reflexivity.
Qed.

End Drawing.

(** Two plots with the same fields are the same plot. *)
Lemma plot_ext (s s' : Plot) :
  ax s = ax s' -> _show_lines s = _show_lines s' ->
  _lines s = _lines s' -> _points_x s = _points_x s' ->
  _points_y s = _points_y s' -> _threshold s = _threshold s' ->
  _scale s = _scale s' -> _cmap s = _cmap s' ->
  _scale_alpha_by_coupling s = _scale_alpha_by_coupling s' ->
  _alpha s = _alpha s' -> s = s'.
Proof.
  destruct s, s'. cbn. intros. subst. reflexivity.
Qed.

Ltac plot_fields :=
  cbn [ax _show_lines _lines _points_x _points_y _threshold _scale _cmap
       _scale_alpha_by_coupling _alpha
       set_ax set_lines set_points_x set_points_y
       artists legend_fontsize ax_legend].

Section CallWithLines.

Variable svds : ndarray -> nat -> result (ndarray * list Q * ndarray).
Variable get_cmap : string -> Q -> rgba.

(** [__call__] with lines, run to its end. *)
Lemma call_runs_with_lines (self : Plot) (ot : Transport)
    (x y : ndarray) (sx sy : list Q) (edges : list edge) :
  _show_lines self = true ->
  _scatter svds self ot = Ok (x, y, sx, sy) ->
  shape1 x = 2%nat -> shape1 y = 2%nat ->
  _mapping self x y (matrix ot) = Ok edges ->
  let n := length (artists (ax self)) in
  let drawn :=
    mk_Axes (artists (ax self)
             ++ [PathCollection (scatter_offsets x) sx "k" "o" "x";
                 PathCollection (scatter_offsets y) sy "k" "X" "y"]
             ++ map (line_of_edge (get_cmap (_cmap self))) edges)
            (Some 15) in
  __call__ svds get_cmap ot self =
  (Ok (seq n (2 + length edges)),
   set_lines (seq (2 + n) (length edges))
     (set_ax drawn
        (set_points_y (Some (S n)) (set_points_x (Some n) self)))).
Proof.
  intros Hshow Hsc Hx Hy Hmap n drawn.
  unfold __call__.
  rewrite (mbind_lift _ _ self _ Hsc). cbv beta iota.
  rewrite (mbind_ok _ _ _ _ _ (self_scatter_two_columns x sx "o" "x" self Hx)).
  rewrite mbind_modify.
  match goal with |- mbind _ _ ?s = _ =>
    rewrite (mbind_ok _ _ _ _ _ (self_scatter_two_columns y sy "X" "y" s Hy))
  end.
  rewrite !mbind_modify, mbind_gets.
  match goal with |- (if negb (_show_lines ?s) then _ else _) ?s = _ =>
    change (_show_lines s) with (_show_lines self); rewrite Hshow;
    cbn [negb]
  end.
  match goal with |- mbind _ _ ?s = _ =>
    assert (Hm : _mapping s x y (matrix ot) = Ok edges)
      by (rewrite (mapping_reads_settings self s);
          [exact Hmap|repeat split; reflexivity]);
    rewrite (mbind_lift _ _ s _ Hm)
  end.
  rewrite mbind_modify.
  match goal with |- mbind _ _ ?s = _ =>
    rewrite (mbind_ok _ _ _ _ _ (mfor_plot_lines get_cmap edges s))
  end.
  rewrite mbind_gets. unfold mret. clear Hm.
  f_equal.
  - plot_fields. rewrite !length_app. cbn [length app]. fold n.
    replace (n + 1 + 1)%nat with (S (S n)) by lia.
    replace (n + 1)%nat with (S n) by lia. reflexivity.
  - apply plot_ext; plot_fields; try reflexivity.
    + subst drawn. rewrite <- !app_assoc. reflexivity.
    + rewrite !length_app. cbn [length app]. fold n.
      replace (n + 1 + 1)%nat with (2 + n)%nat by lia. reflexivity.
    + rewrite length_app. cbn [length]. fold n. f_equal. lia.
Qed.

(** X7.  With [show_lines] on, when [_scatter] returns two-column point
    sets and [_mapping] returns [edges], [__call__] appends to the axes the
    two scatters and then one line per edge, in order, each of width
    [0.5 + 4 * strength], coloured by the colour map at [strength], with
    [zorder] 0 and the alpha of the edge; it returns the handles of these
    [2 + len(edges)] new artists and keeps the line handles in [_lines]. *)
Theorem call_draws_points_and_lines (self : Plot) (ot : Transport)
    (x y : ndarray) (sx sy : list Q) (edges : list edge) :
  _show_lines self = true ->
  _scatter svds self ot = Ok (x, y, sx, sy) ->
  shape1 x = 2%nat -> shape1 y = 2%nat ->
  _mapping self x y (matrix ot) = Ok edges ->
  let n := length (artists (ax self)) in
  let drawn :=
    mk_Axes (artists (ax self)
             ++ [PathCollection (scatter_offsets x) sx "k" "o" "x";
                 PathCollection (scatter_offsets y) sy "k" "X" "y"]
             ++ map (line_of_edge (get_cmap (_cmap self))) edges)
            (Some 15) in
  __call__ svds get_cmap ot self =
  (Ok (seq n (2 + length edges)),
   set_lines (seq (2 + n) (length edges))
     (set_ax drawn
        (set_points_y (Some (S n)) (set_points_x (Some n) self)))).
Proof. apply call_runs_with_lines. Qed.

End CallWithLines.

(** ** Lists updated in place *)

Lemma length_update_nth {A : Type} (f : A -> A) (l : list A) (i : nat) :
  length (update_nth f l i) = length l.
Proof.
  revert i. induction l as [|h t IH]; intros [|i]; simpl; auto.
Qed.

Lemma nth_error_update_nth {A : Type} (f : A -> A) (l : list A)
    (i j : nat) :
  nth_error (update_nth f l i) j =
  if Nat.eqb i j then option_map f (nth_error l j) else nth_error l j.
Proof.
  revert i j. induction l as [|h t IH]; intros [|i] [|j]; simpl;
    try reflexivity.
  - now destruct (Nat.eqb i j).
  - apply IH.
Qed.

Lemma handle_kind_update_artist (axes : Axes) (h h' : handle)
    (f : artist -> artist) :
  (forall p, is_line (f p) = is_line p) ->
  handle_kind (update_artist axes h f) h' = handle_kind axes h'.
Proof.
  intros Hf. unfold handle_kind, update_artist. simpl.
  rewrite nth_error_update_nth.
  destruct (Nat.eqb h h'); [|reflexivity].
  destruct (nth_error (artists axes) h'); simpl; [|reflexivity].
  now rewrite Hf.
Qed.

Lemma is_line_set_offsets (x : ndarray) (p : artist) :
  is_line (set_offsets x p) = is_line p.
Proof. destruct p; reflexivity. Qed.

Lemma is_line_set_line (xd yd : Q * Q) (w : Q) (c : rgba) (al : Q)
    (p : artist) :
  is_line (set_line xd yd w c al p) = is_line p.
Proof. destruct p; reflexivity. Qed.

Lemma mfor_map {A B : Type} (f : A -> B) (l : list A) (body : B -> M unit) :
  mfor (map f l) body = mfor l (fun v => body (f v)).
Proof.
  induction l as [|h t IH]; simpl; [reflexivity|]. now rewrite IH.
Qed.

Lemma map_nth_seq_skipn {A : Type} (d : A) (l : list A) (k : nat) :
  map (fun i => nth i l d) (seq k (length l - k)) = skipn k l.
Proof.
  revert k. induction l as [|h t IH]; intros k.
  - now destruct k.
  - destruct k as [|k].
    + rewrite Nat.sub_0_r. cbn [skipn].
      etransitivity; [apply (map_seq_nth d (fun v => v))|apply map_id].
    + cbn [length Nat.sub skipn]. rewrite <- IH, <- seq_shift, map_map.
      reflexivity.
Qed.

(** [set_offsets] through an attribute that holds a handle. *)
Lemma points_set_offsets_some (attr : Plot -> option handle) (x : ndarray)
    (self : Plot) (h : handle) :
  attr self = Some h ->
  points_set_offsets attr x self =
  (Ok h, set_ax (update_artist (ax self) h (set_offsets x)) self).
Proof. intros H. unfold points_set_offsets. now rewrite H. Qed.

Lemma points_set_offsets_none (attr : Plot -> option handle) (x : ndarray)
    (self : Plot) :
  attr self = None ->
  exists msg, points_set_offsets attr x self = (Raise (AttributeError msg), self).
Proof. intros H. unfold points_set_offsets. rewrite H. eauto. Qed.


Section Updating.

Variable svds : ndarray -> nat -> result (ndarray * list Q * ndarray).
Variable get_cmap : string -> Q -> rgba.

(** The loop over [zip(self._lines, new_lines)] only rewrites artists in
    place. *)
Lemma mfor_update_lines (pairs : list (handle * edge)) (self : Plot) :
  exists axes',
    mfor pairs (update_line get_cmap) self = (Ok tt, set_ax axes' self) /\
    length (artists axes') = length (artists (ax self)) /\
    legend_fontsize axes' = legend_fontsize (ax self) /\
    forall h, handle_kind axes' h = handle_kind (ax self) h.
Proof.
  revert self. induction pairs as [|ln t IH]; intros self.
  - exists (ax self). split; [|auto].
    simpl. unfold mret, set_ax.
    destruct self as [axes sh ls px py th sc cm fl al]. reflexivity.
  - simpl mfor. unfold mbind. unfold update_line at 1.
    destruct (IH (set_ax (update_artist (ax self) (fst ln)
                            (set_line (start (snd ln)) (end_ (snd ln))
                               ((1 # 2) + 4 * strength (snd ln))
                               (get_cmap (_cmap self) (strength (snd ln)))
                               (alpha (snd ln))))
                         self))
      as (axes' & Hrun & Hlen & Hleg & Hk).
    exists axes'. split; [|split; [|split]].
    + rewrite Hrun. reflexivity.
    + rewrite Hlen. simpl. apply length_update_nth.
    + rewrite Hleg. reflexivity.
    + intros h. rewrite Hk. simpl.
      apply handle_kind_update_artist, is_line_set_line.
Qed.

(** [update] with lines, run to its end. *)
Lemma update_runs_with_lines (self : Plot) (ot : Transport)
    (x y : ndarray) (sx sy : list Q) (px py : handle)
    (new_lines : list edge) :
  _show_lines self = true ->
  _scatter svds self ot = Ok (x, y, sx, sy) ->
  _points_x self = Some px -> _points_y self = Some py ->
  _mapping self x y (matrix ot) = Ok new_lines ->
  let n := length (artists (ax self)) in
  let extra := (length new_lines - length (_lines self))%nat in
  exists s',
    update svds get_cmap ot self = (Ok ([px; py] ++ _lines s'), s') /\
    _lines s' = firstn (length new_lines) (_lines self) ++ seq n extra /\
    length (_lines s') = length new_lines /\
    length (artists (ax s')) = (n + extra)%nat /\
    skipn n (artists (ax s')) =
      map (line_of_edge (get_cmap (_cmap self)))
          (skipn (length (_lines self)) new_lines).
Proof.
  intros Hshow Hsc Hpx Hpy Hmap n extra.
  destruct (update svds get_cmap ot self) as [r s'] eqn:Hupd.
  unfold update in Hupd.
  rewrite (mbind_lift _ _ self _ Hsc) in Hupd. cbv beta iota in Hupd.
  rewrite (mbind_ok _ _ _ _ _
             (points_set_offsets_some _points_x x self px Hpx)) in Hupd.
  match type of Hupd with mbind _ _ ?s = _ =>
    rewrite (mbind_ok _ _ _ _ _
               (points_set_offsets_some _points_y y s py Hpy)) in Hupd
  end.
  rewrite mbind_gets in Hupd.
  match type of Hupd with
  | (if negb (_show_lines ?s) then _ else _) ?s = _ =>
    change (_show_lines s) with (_show_lines self) in Hupd;
    rewrite Hshow in Hupd; cbn [negb] in Hupd
  end.
  match type of Hupd with mbind _ _ ?s = _ =>
    assert (Hm : _mapping s x y (matrix ot) = Ok new_lines)
      by (rewrite (mapping_reads_settings self s);
          [exact Hmap|repeat split; reflexivity]);
    rewrite (mbind_lift _ _ s _ Hm) in Hupd; clear Hm
  end.
  rewrite mbind_gets in Hupd.
  match type of Hupd with mbind (mfor ?pairs _) _ ?s = _ =>
    destruct (mfor_update_lines pairs s) as (a3 & Hrun & Hlen3 & _ & _);
    rewrite (mbind_ok _ _ _ _ _ Hrun) in Hupd; clear Hrun
  end.
  rewrite !mbind_gets in Hupd.
  match type of Hupd with mbind (mfor (seq ?k (?m - ?k)) _) _ ?s = _ =>
    change k with (length (_lines self)) in Hupd;
    change m with (if _show_lines self then length new_lines else 0%nat)
      in Hupd
  end.
  rewrite Hshow in Hupd.
  rewrite <- (mfor_map (fun i => nth i new_lines default_edge)
                       (seq (length (_lines self))
                            (length new_lines - length (_lines self)))
                       (self_plot_line get_cmap)) in Hupd.
  rewrite map_nth_seq_skipn in Hupd.
  match type of Hupd with mbind _ _ ?s = _ =>
    rewrite (mbind_ok _ _ _ _ _ (mfor_plot_lines get_cmap _ s)) in Hupd
  end.
  rewrite mbind_modify, mbind_gets in Hupd. unfold mret in Hupd.
  assert (Hn3 : length (artists a3) = n).
  { rewrite Hlen3. plot_fields. unfold update_artist. cbn [artists].
    now rewrite !length_update_nth. }
  injection Hupd as <- <-.
  match goal with |- exists s', (_, ?final) = _ /\ _ => exists final end.
  split; [reflexivity|].
  plot_fields. rewrite Hn3, length_skipn. fold extra.
  assert (Hl : firstn (length new_lines) (_lines self ++ seq n extra) =
               firstn (length new_lines) (_lines self) ++ seq n extra).
  { rewrite firstn_app.
    destruct (Nat.le_gt_cases (length new_lines) (length (_lines self)))
      as [Hle|Hgt].
    - replace extra with 0%nat by (unfold extra; lia). cbn [seq].
      now rewrite firstn_nil.
    - f_equal. apply firstn_all2. rewrite length_seq. unfold extra. lia. }
  split; [exact Hl|]. split; [|split].
  - rewrite Hl, length_app, length_firstn, length_seq. unfold extra. lia.
  - rewrite length_app, length_map, length_skipn, Hn3. reflexivity.
  - rewrite <- Hn3 at 1. rewrite skipn_app, skipn_all, Nat.sub_diag.
    reflexivity.
Qed.

(** X8.  With [show_lines] on, on a plot whose two scatters exist, when
    [_scatter] and [_mapping] return: [update] returns the two scatter
    handles followed by exactly as many line handles as there are new
    edges.  It keeps the first old handles, creates the missing lines at
    the next free positions for the edges beyond the old count, and removes
    no artist from the axes: when there are fewer edges than before, the
    surplus lines lose their handles but stay on the axes. *)
Theorem update_line_handles (self : Plot) (ot : Transport)
    (x y : ndarray) (sx sy : list Q) (px py : handle)
    (new_lines : list edge) :
  _show_lines self = true ->
  _scatter svds self ot = Ok (x, y, sx, sy) ->
  _points_x self = Some px -> _points_y self = Some py ->
  _mapping self x y (matrix ot) = Ok new_lines ->
  let n := length (artists (ax self)) in
  let extra := (length new_lines - length (_lines self))%nat in
  exists s',
    update svds get_cmap ot self = (Ok ([px; py] ++ _lines s'), s') /\
    _lines s' = firstn (length new_lines) (_lines self) ++ seq n extra /\
    length (_lines s') = length new_lines /\
    length (artists (ax s')) = (n + extra)%nat /\
    skipn n (artists (ax s')) =
      map (line_of_edge (get_cmap (_cmap self)))
          (skipn (length (_lines self)) new_lines).
Proof. apply update_runs_with_lines. Qed.

End Updating.

(** ** [__call__] and [update]: errors *)

Lemma self_scatter_bad_columns (pts : ndarray) (s : list Q)
    (marker label : string) (self : Plot) :
  shape1 pts <> 2%nat ->
  exists msg,
    self_scatter pts s marker label self = (Raise (TypeError msg), self).
Proof.
  intros H. unfold self_scatter, ax_scatter.
  assert (Hlen : length (rows (transpose pts)) = shape1 pts).
  { unfold transpose. cbn [rows]. now rewrite length_map, length_seq. }
  destruct (rows (transpose pts)) as [|xs [|ys [|zs t]]]; cbn [length] in Hlen.
  - eauto.
  - eauto.
  - congruence.
  - eauto.
Qed.

Section MethodErrors.

Variable svds : ndarray -> nat -> result (ndarray * list Q * ndarray).
Variable get_cmap : string -> Q -> rgba.

(** X9.  Whatever [_scatter] raises (the geometry error, a failure of the
    SVD, mismatched dimensions) is raised by [__call__] and by [update]
    before they touch the plot: the object and its axes are unchanged. *)
Theorem scatter_error_leaves_plot (self : Plot) (ot : Transport) (e : exn) :
  _scatter svds self ot = Raise e ->
  __call__ svds get_cmap ot self = (Raise e, self) /\
  update svds get_cmap ot self = (Raise e, self).
Proof.
  intros H. split.
  - unfold __call__. apply mbind_lift_raise. exact H.
  - unfold update. apply mbind_lift_raise. exact H.
Qed.

(** X10.  [update] on a plot that [__call__] has not drawn yet ([_points_x]
    is still [None]) raises [AttributeError] and changes nothing, for
    every transport on which [_scatter] returns. *)
Theorem update_before_call (self : Plot) (ot : Transport)
    (x y : ndarray) (sx sy : list Q) :
  _scatter svds self ot = Ok (x, y, sx, sy) ->
  _points_x self = None ->
  exists msg,
    update svds get_cmap ot self = (Raise (AttributeError msg), self).
Proof.
  intros Hsc Hpx. unfold update.
  rewrite (mbind_lift _ _ self _ Hsc). cbv beta iota.
  destruct (points_set_offsets_none _points_x x self Hpx) as [msg Hmsg].
  exists msg. apply mbind_raise. exact Hmsg.
Qed.

(** X11.  [bidimensional] looks at the dimension of [x] only.  For a point
    cloud whose [x] has two columns and whose [y] has not, [__call__] draws
    the scatter of [x], records its handle, and then raises [TypeError]
    from the scatter of [y]: the plot is left half drawn. *)
Theorem call_mixed_dimensions (self : Plot) (ot : Transport)
    (x y : ndarray) :
  geom ot = PointCloud x y ->
  shape1 x = 2%nat -> shape1 y <> 2%nat ->
  let n := length (artists (ax self)) in
  let sx := map (fun w => w * _scale self * Q_of_nat (length (a ot))) (a ot) in
  exists msg,
    __call__ svds get_cmap ot self =
    (Raise (TypeError msg),
     set_points_x (Some n)
       (set_ax (mk_Axes (artists (ax self)
                         ++ [PathCollection (scatter_offsets x) sx
                                            "k" "o" "x"])
                        (legend_fontsize (ax self)))
               self)).
Proof.
  intros Hg Hx Hy n sx.
  assert (Hsc : _scatter svds self ot =
                Ok (x, y, sx,
                    map (fun w => w * _scale self * Q_of_nat (length (b ot)))
                        (b ot))).
  { unfold _scatter. rewrite Hg. cbn [isinstance_PointCloud negb].
    unfold bidimensional. rewrite Hx. reflexivity. }
  unfold __call__.
  rewrite (mbind_lift _ _ self _ Hsc). cbv beta iota.
  rewrite (mbind_ok _ _ _ _ _ (self_scatter_two_columns x sx "o" "x" self Hx)).
  rewrite mbind_modify.
  match goal with |- exists msg, mbind (self_scatter y ?s ?m ?l) _ ?st = _ =>
    destruct (self_scatter_bad_columns y s m l st Hy) as [msg Hmsg];
    exists msg; rewrite (mbind_raise _ _ _ _ _ Hmsg)
  end.
  reflexivity.
Qed.

End MethodErrors.

(** ** [__call__] and [update]: what every call keeps *)

Lemma triple_bind {A B : Type} (P : Plot -> Prop) (m : M A)
    (Q : A -> Plot -> Prop) (k : A -> M B) (R : B -> Plot -> Prop)
    (E : Plot -> Prop) :
  triple P m Q E -> (forall v, triple (Q v) (k v) R E) ->
  triple P (mbind m k) R E.
Proof.
  intros Hm Hk self HP. unfold mbind. specialize (Hm self HP).
  destruct (m self) as [[v|e] s']; [apply (Hk v s' Hm)|exact Hm].
Qed.

Lemma triple_mret {A : Type} (P : Plot -> Prop) (v : A)
    (E : Plot -> Prop) :
  triple P (mret v) (fun _ => P) E.
Proof. intros self HP. exact HP. Qed.

Lemma triple_gets {A : Type} (P : Plot -> Prop) (f : Plot -> A)
    (E : Plot -> Prop) :
  triple P (gets f) (fun _ => P) E.
Proof. intros self HP. exact HP. Qed.

Lemma triple_lift {A : Type} (P : Plot -> Prop) (r : Plot -> result A) :
  triple P (lift r) (fun _ => P) P.
Proof. intros self HP. unfold lift. destruct (r self); exact HP. Qed.

Lemma triple_modify (P Q : Plot -> Prop) (f : Plot -> Plot)
    (E : Plot -> Prop) :
  (forall s, P s -> Q (f s)) -> triple P (modify f) (fun _ => Q) E.
Proof. intros H self HP. apply H, HP. Qed.

Lemma triple_mfor {A : Type} (P : Plot -> Prop) (l : list A)
    (body : A -> M unit) :
  (forall v, triple P (body v) (fun _ => P) P) ->
  triple P (mfor l body) (fun _ => P) P.
Proof.
  intros Hb. induction l as [|h t IH]; cbn [mfor].
  - apply triple_mret.
  - apply (triple_bind P _ (fun _ => P)); [apply Hb|intros u; exact IH].
Qed.

Lemma handle_kind_bound (axes : Axes) (h : handle) (k : bool) :
  handle_kind axes h = Some k -> (h < length (artists axes))%nat.
Proof.
  unfold handle_kind. intros H. apply nth_error_Some.
  destruct (nth_error (artists axes) h); [discriminate|discriminate H].
Qed.

Lemma axes_grow_refl (axes : Axes) : axes_grow axes axes.
Proof. split; [lia|reflexivity]. Qed.

Lemma axes_grow_trans (a1 a2 a3 : Axes) :
  axes_grow a1 a2 -> axes_grow a2 a3 -> axes_grow a1 a3.
Proof.
  intros [H12 K12] [H23 K23]. split; [lia|].
  intros h Hh. rewrite K23 by lia. now apply K12.
Qed.

Lemma axes_grow_add (axes : Axes) (p : artist) :
  axes_grow axes (snd (add_artist axes p)).
Proof.
  unfold add_artist, axes_grow, handle_kind. cbn [snd artists].
  split; [rewrite length_app; lia|].
  intros h Hh. now rewrite nth_error_app1.
Qed.

Lemma handle_kind_added (axes : Axes) (p : artist) :
  handle_kind (snd (add_artist axes p)) (fst (add_artist axes p)) =
  Some (is_line p).
Proof.
  unfold add_artist, handle_kind. cbn [fst snd artists].
  rewrite nth_error_app2 by lia. now rewrite Nat.sub_diag.
Qed.

Lemma axes_grow_update (axes : Axes) (h : handle) (f : artist -> artist) :
  (forall p, is_line (f p) = is_line p) ->
  axes_grow axes (update_artist axes h f).
Proof.
  intros Hf. split.
  - unfold update_artist. cbn [artists]. now rewrite length_update_nth.
  - intros h' _. now apply handle_kind_update_artist.
Qed.

Lemma axes_grow_legend (axes : Axes) (fs : Q) :
  axes_grow axes (ax_legend axes fs).
Proof. split; [unfold ax_legend; cbn [artists]; lia|reflexivity]. Qed.

(** Replacing the axes by larger ones keeps the handles sound. *)
Lemma plot_ok_set_ax (s : Plot) (axes' : Axes) :
  axes_grow (ax s) axes' -> plot_ok s -> plot_ok (set_ax axes' s).
Proof.
  intros [_ Hk] (Hnd & Hl & Hx & Hy). unfold plot_ok. plot_fields.
  assert (Hkeep : forall h k, handle_kind (ax s) h = Some k ->
                              handle_kind axes' h = Some k).
  { intros h k H. rewrite Hk; [exact H|]. eapply handle_kind_bound, H. }
  split; [exact Hnd|]. split; [|split].
  - eapply Forall_impl; [|exact Hl]. intros h. apply Hkeep.
  - intros h H. apply Hkeep, Hx, H.
  - intros h H. apply Hkeep, Hy, H.
Qed.

Lemma stays_refl (s : Plot) : stays s s.
Proof.
  split; [repeat split|]. split; [apply axes_grow_refl|auto].
Qed.

Lemma stays_set_ax (s0 s : Plot) (axes' : Axes) :
  axes_grow (ax s) axes' -> stays s0 s -> stays s0 (set_ax axes' s).
Proof.
  intros Hg (Hc & Ha & Hok). split; [exact Hc|]. split.
  - plot_fields. eapply axes_grow_trans; eassumption.
  - intros H0. apply plot_ok_set_ax; [exact Hg|apply Hok, H0].
Qed.

Lemma stays_set_points_x (s0 s : Plot) (h : handle) :
  handle_kind (ax s) h = Some false -> stays s0 s ->
  stays s0 (set_points_x (Some h) s).
Proof.
  intros Hh (Hc & Ha & Hok). split; [exact Hc|]. split; [exact Ha|].
  intros H0. destruct (Hok H0) as (Hnd & Hl & Hx & Hy).
  unfold plot_ok. plot_fields. repeat split; try assumption.
  intros h' E. injection E as <-. exact Hh.
Qed.

Lemma stays_set_points_y (s0 s : Plot) (h : handle) :
  handle_kind (ax s) h = Some false -> stays s0 s ->
  stays s0 (set_points_y (Some h) s).
Proof.
  intros Hh (Hc & Ha & Hok). split; [exact Hc|]. split; [exact Ha|].
  intros H0. destruct (Hok H0) as (Hnd & Hl & Hx & Hy).
  unfold plot_ok. plot_fields. repeat split; try assumption.
  intros h' E. injection E as <-. exact Hh.
Qed.

Lemma stays_set_lines_nil (s0 s : Plot) :
  stays s0 s -> stays s0 (set_lines [] s).
Proof.
  intros (Hc & Ha & Hok). split; [exact Hc|]. split; [exact Ha|].
  intros H0. destruct (Hok H0) as (Hnd & Hl & Hx & Hy).
  unfold plot_ok. plot_fields. repeat split; try assumption; constructor.
Qed.

Lemma stays_set_lines_firstn (s0 s : Plot) (k : nat) :
  stays s0 s -> stays s0 (set_lines (firstn k (_lines s)) s).
Proof.
  intros (Hc & Ha & Hok). split; [exact Hc|]. split; [exact Ha|].
  intros H0. destruct (Hok H0) as (Hnd & Hl & Hx & Hy).
  unfold plot_ok. plot_fields.
  rewrite <- (firstn_skipn k (_lines s)) in Hnd, Hl.
  split; [eapply NoDup_app_remove_r, Hnd|].
  split; [apply Forall_app in Hl; apply Hl|]. split; assumption.
Qed.

Lemma stays_plot_line (s0 s : Plot) (line : artist) :
  is_line line = true -> stays s0 s ->
  stays s0 (set_lines (_lines s ++ [fst (add_artist (ax s) line)])
              (set_ax (snd (add_artist (ax s) line)) s)).
Proof.
  intros Hline Hs.
  assert (Hs' : stays s0 (set_ax (snd (add_artist (ax s) line)) s))
    by (apply stays_set_ax; [apply axes_grow_add|exact Hs]).
  destruct Hs as (_ & _ & Hok0). destruct Hs' as (Hc & Ha & Hok).
  split; [exact Hc|]. split; [exact Ha|].
  intros H0. destruct (Hok H0) as (Hnd & Hl & Hx & Hy).
  destruct (Hok0 H0) as (_ & Hl0 & _ & _).
  unfold plot_ok in *. revert Hnd Hl Hx Hy. plot_fields.
  intros Hnd Hl Hx Hy.
  split; [|split; [|split; assumption]].
  - apply NoDup_app; [exact Hnd|repeat constructor; intros []|].
    intros h Hh [E|[]]. rewrite Forall_forall in Hl0.
    apply Hl0, handle_kind_bound in Hh.
    unfold add_artist in E. cbn [fst] in E. lia.
  - apply Forall_app. split; [exact Hl|]. constructor; [|constructor].
    rewrite handle_kind_added. now rewrite Hline.
Qed.

Section Keeping.

Variable svds : ndarray -> nat -> result (ndarray * list Q * ndarray).
Variable get_cmap : string -> Q -> rgba.
Variable s0 : Plot.

Lemma keep_self_scatter (pts : ndarray) (s : list Q)
    (marker label : string) :
  triple (stays s0) (self_scatter pts s marker label)
         (fun h s' => stays s0 s' /\ handle_kind (ax s') h = Some false)
         (stays s0).
Proof.
  intros self HP. unfold self_scatter, ax_scatter.
  destruct (rows (transpose pts)) as [|xs [|ys [|zs t]]]; try exact HP.
  match goal with |- context [add_artist (ax self) ?p] =>
    change (stays s0 (set_ax (snd (add_artist (ax self) p)) self) /\
            handle_kind (ax (set_ax (snd (add_artist (ax self) p)) self))
                        (fst (add_artist (ax self) p)) = Some false);
    split; [apply stays_set_ax; [apply axes_grow_add|exact HP]|];
    plot_fields; apply (handle_kind_added (ax self) p)
  end.
Qed.

Lemma keep_points_set_offsets (attr : Plot -> option handle) (x : ndarray) :
  triple (stays s0) (points_set_offsets attr x) (fun _ => stays s0)
         (stays s0).
Proof.
  intros self HP. unfold points_set_offsets.
  destruct (attr self) as [h|]; [|exact HP].
  apply stays_set_ax; [|exact HP].
  apply axes_grow_update, is_line_set_offsets.
Qed.

Lemma keep_plot_line (l : edge) :
  triple (stays s0) (self_plot_line get_cmap l) (fun _ => stays s0)
         (stays s0).
Proof.
  intros self HP. unfold self_plot_line, ax_plot.
  apply (stays_plot_line s0 self
           (Line2D (start l) (end_ l) ((1 # 2) + 4 * strength l)
                   (get_cmap (_cmap self) (strength l)) 0%Z (alpha l)));
    [reflexivity|exact HP].
Qed.

Lemma keep_update_line (ln : handle * edge) :
  triple (stays s0) (update_line get_cmap ln) (fun _ => stays s0)
         (stays s0).
Proof.
  intros self HP. unfold update_line.
  apply stays_set_ax; [|exact HP].
  apply axes_grow_update, is_line_set_line.
Qed.

Ltac keep_step :=
  first
    [ apply triple_mret
    | apply (triple_bind (stays s0) _ (fun _ => stays s0));
      [ first [ apply triple_lift | apply triple_gets
              | apply keep_points_set_offsets
              | apply triple_mfor; intros ?;
                first [apply keep_plot_line | apply keep_update_line]
              | apply triple_modify; intros ? ?;
                first [ apply stays_set_lines_nil; assumption
                      | apply stays_set_lines_firstn; assumption
                      | apply stays_set_ax;
                        [apply axes_grow_legend|assumption] ] ]
      | intros ? ] ].

Lemma call_stays (ot : Transport) :
  triple (stays s0) (__call__ svds get_cmap ot) (fun _ => stays s0)
         (stays s0).
Proof.
  unfold __call__.
  apply (triple_bind (stays s0) _ (fun _ => stays s0));
    [apply triple_lift|intros [[[x y] sx] sy]].
  eapply triple_bind; [apply keep_self_scatter|intros px].
  apply (triple_bind _ _ (fun _ => stays s0));
    [apply triple_modify; intros s [Hs Hk];
     now apply stays_set_points_x|intros _].
  eapply triple_bind; [apply keep_self_scatter|intros py].
  apply (triple_bind _ _ (fun _ => stays s0));
    [apply triple_modify; intros s [Hs Hk];
     now apply stays_set_points_y|intros _].
  keep_step. keep_step. destruct (negb _); repeat keep_step.
Qed.

Lemma update_stays (ot : Transport) :
  triple (stays s0) (update svds get_cmap ot) (fun _ => stays s0)
         (stays s0).
Proof.
  unfold update.
  apply (triple_bind (stays s0) _ (fun _ => stays s0));
    [apply triple_lift|intros [[[x y] sx] sy]].
  keep_step. keep_step. keep_step. destruct (negb _); repeat keep_step.
Qed.

End Keeping.

Lemma triple_run {A : Type} (P : Plot -> Prop) (m : M A) (self : Plot) :
  triple P m (fun _ => P) P -> P self -> P (snd (m self)).
Proof.
  intros H HP. specialize (H self HP).
  destruct (m self) as [[v|e] s']; exact H.
Qed.

Section WhatCallsKeep.

Variable svds : ndarray -> nat -> result (ndarray * list Q * ndarray).
Variable get_cmap : string -> Q -> rgba.

(** X12.  Whether they return or raise, [__call__] and [update] leave the
    settings of the plot as they are (threshold, scale, colour map, flags,
    base alpha) and remove no artist from the axes: every artist that was
    there is still at its position, and of the same kind. *)
Theorem methods_keep_settings_and_artists (self : Plot) (ot : Transport) :
  let after_call := snd (__call__ svds get_cmap ot self) in
  let after_update := snd (update svds get_cmap ot self) in
  (same_config self after_call /\ axes_grow (ax self) (ax after_call)) /\
  (same_config self after_update /\ axes_grow (ax self) (ax after_update)).
Proof.
  split.
  - destruct (triple_run _ _ self (call_stays svds get_cmap self ot)
                (stays_refl self)) as (Hc & Ha & _).
    split; assumption.
  - destruct (triple_run _ _ self (update_stays svds get_cmap self ot)
                (stays_refl self)) as (Hc & Ha & _).
    split; assumption.
Qed.

(** X13.  The handles of a plot stay sound.  If the line handles of the
    plot are distinct and refer to lines of its axes, and its point handles
    refer to scatters, the same holds after [__call__] and after [update],
    whether they return or raise. *)
Theorem methods_keep_handles_sound (self : Plot) (ot : Transport) :
  plot_ok self ->
  plot_ok (snd (__call__ svds get_cmap ot self)) /\
  plot_ok (snd (update svds get_cmap ot self)).
Proof.
  intros Hok. split.
  - destruct (triple_run _ _ self (call_stays svds get_cmap self ot)
                (stays_refl self)) as (_ & _ & H).
    apply H, Hok.
  - destruct (triple_run _ _ self (update_stays svds get_cmap self ot)
                (stays_refl self)) as (_ & _ & H).
    apply H, Hok.
Qed.

End WhatCallsKeep.

(** ** [__call__] followed by [update] *)

Lemma self_scatter_ok_two_columns (pts : ndarray) (s : list Q)
    (marker label : string) (self s' : Plot) (h : handle) :
  self_scatter pts s marker label self = (Ok h, s') -> shape1 pts = 2%nat.
Proof.
  intros H. destruct (Nat.eq_dec (shape1 pts) 2) as [E|E]; [exact E|].
  destruct (self_scatter_bad_columns pts s marker label self E) as [msg Hm].
  rewrite Hm in H. discriminate H.
Qed.

Section CallThenUpdate.

Variable svds : ndarray -> nat -> result (ndarray * list Q * ndarray).
Variable get_cmap : string -> Q -> rgba.

(** A call that returned went through every step. *)
Lemma call_ok_inv (self s1 : Plot) (ot : Transport) (hs : list handle) :
  _show_lines self = true ->
  __call__ svds get_cmap ot self = (Ok hs, s1) ->
  exists x y sx sy edges,
    _scatter svds self ot = Ok (x, y, sx, sy) /\
    shape1 x = 2%nat /\ shape1 y = 2%nat /\
    _mapping self x y (matrix ot) = Ok edges.
Proof.
  intros Hshow H. unfold __call__ in H.
  destruct (_scatter svds self ot) as [[[[x y] sx] sy]|e] eqn:Hsc;
    [|rewrite (mbind_lift_raise _ _ self e Hsc) in H; discriminate H].
  rewrite (mbind_lift _ _ self _ Hsc) in H. cbv beta iota in H.
  destruct (self_scatter x sx "o" "x" self) as [[px|e] sa] eqn:Hpx;
    [|rewrite (mbind_raise _ _ _ _ _ Hpx) in H; discriminate H].
  assert (Hx := self_scatter_ok_two_columns _ _ _ _ _ _ _ Hpx).
  rewrite (mbind_ok _ _ _ _ _ Hpx), mbind_modify in H.
  match type of H with mbind (self_scatter y ?s ?m ?l) _ ?st = _ =>
    destruct (self_scatter y s m l st) as [[py|e] sb] eqn:Hpy;
      [|rewrite (mbind_raise _ _ _ _ _ Hpy) in H; discriminate H]
  end.
  assert (Hy := self_scatter_ok_two_columns _ _ _ _ _ _ _ Hpy).
  exists x, y, sx, sy.
  destruct (_mapping self x y (matrix ot)) as [edges|e] eqn:Hmap;
    [exists edges; auto|exfalso].
  assert (Hrun : exists st,
            __call__ svds get_cmap ot self = (Raise e, st)).
  { unfold __call__.
    rewrite (mbind_lift _ _ self _ Hsc). cbv beta iota.
    rewrite (mbind_ok _ _ _ _ _
               (self_scatter_two_columns x sx "o" "x" self Hx)).
    rewrite mbind_modify.
    match goal with |- exists st, mbind _ _ ?s = _ =>
      rewrite (mbind_ok _ _ _ _ _
                 (self_scatter_two_columns y sy "X" "y" s Hy))
    end.
    rewrite !mbind_modify, mbind_gets.
    match goal with
    | |- exists st, (if negb (_show_lines ?s) then _ else _) ?s = _ =>
      change (_show_lines s) with (_show_lines self); rewrite Hshow;
      cbn [negb];
      assert (Hm : _mapping s x y (matrix ot) = Raise e)
        by (rewrite (mapping_reads_settings self s);
            [exact Hmap|repeat split; reflexivity]);
      rewrite (mbind_lift_raise _ _ s _ Hm)
    end.
    eexists. reflexivity. }
  destruct Hrun as [st Hrun]. unfold __call__ in Hrun.
  rewrite (mbind_lift _ _ self _ Hsc) in Hrun. cbv beta iota in Hrun.
  rewrite (mbind_ok _ _ _ _ _ Hpx), mbind_modify in Hrun.
  rewrite (mbind_ok _ _ _ _ _ Hpy) in Hrun.
  rewrite (mbind_ok _ _ _ _ _ Hpy) in H.
  rewrite Hrun in H. discriminate H.
Qed.

(** X14.  The two methods compose.  After a [__call__] that returned (with
    [show_lines] on), an [update] with any transport on which [_scatter]
    and [_mapping] return does not fail: it returns the two scatter handles
    of the call followed by one line handle per new edge, the first of them
    being the line handles of the call. *)
Theorem call_then_update (self s1 : Plot) (ot ot' : Transport)
    (hs : list handle) (x' y' : ndarray) (sx' sy' : list Q)
    (new_lines : list edge) :
  _show_lines self = true ->
  __call__ svds get_cmap ot self = (Ok hs, s1) ->
  _scatter svds s1 ot' = Ok (x', y', sx', sy') ->
  _mapping s1 x' y' (matrix ot') = Ok new_lines ->
  exists ls s2,
    update svds get_cmap ot' s1 = (Ok (firstn 2 hs ++ ls), s2) /\
    _lines s2 = ls /\
    length ls = length new_lines /\
    firstn (length new_lines) (skipn 2 hs) =
      firstn (length hs - 2) ls.
Proof.
  intros Hshow Hcall Hsc' Hmap'.
  destruct (call_ok_inv self s1 ot hs Hshow Hcall)
    as (x & y & sx & sy & edges & Hsc & Hx & Hy & Hmap).
  rewrite (call_runs_with_lines svds get_cmap self ot x y sx sy edges
             Hshow Hsc Hx Hy Hmap) in Hcall.
  injection Hcall as <- <-.
  match type of Hsc' with _scatter _ ?s _ = _ =>
    destruct (update_runs_with_lines svds get_cmap s ot' x' y' sx' sy'
                (length (artists (ax self)))
                (S (length (artists (ax self)))) new_lines)
      as (s2 & Hupd & Hls & Hlen & _);
      [exact Hshow|exact Hsc'|reflexivity|reflexivity|exact Hmap'|]
  end.
  exists (_lines s2), s2.
  split; [exact Hupd|]. split; [reflexivity|]. split; [exact Hlen|].
  rewrite Hls. plot_fields.
  cbn [skipn].
  match goal with |- context [(?k - 2)%nat] =>
    replace (k - 2)%nat with (length edges)
      by (cbn [length]; rewrite ?length_seq; lia)
  end.
  rewrite length_seq.
  set (old := seq _ (length edges)).
  set (fresh := seq _ (length new_lines - length edges)).
  assert (Hold : @length handle old = length edges) by apply length_seq.
  rewrite firstn_app, firstn_firstn, length_firstn, Hold.
  destruct (Nat.le_gt_cases (length new_lines) (length edges)) as [Hle|Hgt].
  - replace (Nat.min (length edges) (length new_lines))
      with (length new_lines) by lia.
    subst fresh.
    replace (length new_lines - length edges)%nat with 0%nat by lia.
    cbn [seq]. now rewrite firstn_nil, app_nil_r.
  - replace (Nat.min (length edges) (length new_lines))
      with (length edges) by lia.
    replace (length edges - Nat.min (length new_lines) (length edges))%nat
      with 0%nat by lia.
    cbn [firstn]. rewrite app_nil_r.
    rewrite !firstn_all2 by lia. reflexivity.
Qed.

End CallThenUpdate.

(** ** [bidimensional]: errors *)

Section ProjectionErrors.

Variable svds : ndarray -> nat -> result (ndarray * list Q * ndarray).

(** X15.  For batches of dimension three or more: if the two dimensions
    differ, [bidimensional] raises the [TypeError] of the concatenation,
    whatever the SVD routine would do; if they agree, an error raised by
    the SVD routine on the concatenation comes out unchanged. *)
Theorem bidimensional_errors (x y : ndarray) :
  (3 <= shape1 x)%nat ->
  (shape1 y <> shape1 x ->
   exists msg, bidimensional svds x y = Raise (TypeError msg)) /\
  (shape1 y = shape1 x ->
   forall e,
     svds (mk_ndarray (shape1 x) (rows x ++ rows y)) 2 = Raise e ->
     bidimensional svds x y = Raise e).
Proof.
  intros Hd. unfold bidimensional, concatenate0.
  replace (Nat.ltb (shape1 x) 3) with false
    by (symmetry; apply Nat.ltb_ge; exact Hd).
  split.
  - intros Hne.
    replace (Nat.eqb (shape1 x) (shape1 y)) with false
      by (symmetry; apply Nat.eqb_neq; congruence).
    eexists. reflexivity.
  - intros He e Hsvd. rewrite He, Nat.eqb_refl. unfold rbind at 1.
    rewrite <- He at 1. rewrite He, Hsvd. reflexivity.
Qed.

End ProjectionErrors.

(** ** [_barycenters] and [barycentric_projections] *)


Lemma barycenters_raises_on_empty (axes : Axes) (pts : ndarray)
    (wa wb : list Q) (m : ndarray) (scale : Q) :
  wa = [] \/ wb = [] ->
  _barycenters axes pts wa wb m scale = (Raise zero_size_min, axes).
Proof.
  intros [H|H]; subst; unfold _barycenters.
  - reflexivity.
  - destruct wa; reflexivity.
Qed.

(** X16.  [_barycenters] with an empty weight vector raises the zero-size
    reduction error of [jnp.min] before drawing anything. *)
Theorem barycenters_empty_weights (axes : Axes) (pts : ndarray)
    (wa wb : list Q) (m : ndarray) (scale : Q) :
  wa = [] \/ wb = [] ->
  _barycenters axes pts wa wb m scale = (Raise zero_size_min, axes).
Proof. apply barycenters_raises_on_empty. Qed.

(** X17.  In the arguments-only path, [barycentric_projections] raises
    [ValueError] when no matrix is given, and raises the zero-size
    reduction error when [a] is left out and the matrix has no row; in both
    cases nothing is drawn on the axes it was given. *)
Theorem projections_array_errors (pts : ndarray) (wa wb : option (list Q))
    (m : ndarray) (axes : Axes) (kwargs : option Q) :
  barycentric_projections (ArrayArg pts) wa wb None (Some axes) kwargs =
    (Raise (ValueError "The `matrix` argument cannot be None."), axes) /\
  (shape0 m = 0%nat ->
   barycentric_projections (ArrayArg pts) None wb (Some m) (Some axes)
                           kwargs =
     (Raise zero_size_min, axes)).
Proof.
  split; [reflexivity|].
  intros H0. unfold barycentric_projections. rewrite H0.
  apply barycenters_raises_on_empty. now left.
Qed.

(** X18.  With a solver output, [barycentric_projections] takes the target
    points, the weights and the coupling from the output: what is passed
    as [a], [b] and [matrix] is ignored.  For a quadratic output the points
    are those of the geometry of its linear state. *)
Theorem projections_ignore_arguments (ot : Transport) (out : GWOutput)
    (x y : ndarray) (wa wb : option (list Q)) (m : option ndarray)
    (axes : Axes) (scale : Q) :
  (geom ot = PointCloud x y ->
   barycentric_projections (TransportArg ot) wa wb m (Some axes)
                           (Some scale) =
   _barycenters axes y (a ot) (b ot) (matrix ot) scale) /\
  (linear_state_geom out = PointCloud x y ->
   barycentric_projections (GWArg out) wa wb m (Some axes) (Some scale) =
   _barycenters axes y (gw_a out) (gw_b out) (gw_matrix out) scale).
Proof.
  split; intros Hg.
  - destruct ot as [g oa ob om]. cbn in Hg. subst g. reflexivity.
  - unfold barycentric_projections. rewrite Hg. reflexivity.
Qed.

(** ** Uniform weights: both size rules give the scale *)









Section UniformSizes.

Variable svds : ndarray -> nat -> result (ndarray * list Q * ndarray).


End UniformSizes.


(** ** [animate] *)



Section Frames.

Variable svds : ndarray -> nat -> result (ndarray * list Q * ndarray).
Variable get_cmap : string -> Q -> rgba.

(** What [set_ax] and [set_lines] keep, the steps of a method keep, apart
    from the two assignments of [__call__] to the point handles. *)
Variable P : Plot -> Prop.
Variable E : Plot -> Prop.
Hypothesis P_E : forall s, P s -> E s.
Hypothesis P_set_ax : forall axes s, P s -> P (set_ax axes s).
Hypothesis P_set_lines : forall ls s, P s -> P (set_lines ls s).








End Frames.


Section Animating.

Variable svds : ndarray -> nat -> result (ndarray * list Q * ndarray).
Variable get_cmap : string -> Q -> rgba.





(** X21.  How [animate] fails.  On an empty sequence it raises
    [IndexError] and leaves the plot as it is.  If the first [__call__]
    raises, so does [animate], in the state the call left.  If the frame
    rate is zero, the first transport is drawn and then
    [ZeroDivisionError] is raised: no animation is built. *)
Theorem animate_failures (self : Plot) (ot0 : Transport)
    (rest : list Transport) (frame_rate : Q) :
  animate svds get_cmap [] frame_rate self = (inl IndexError, self) /\
  (forall e s',
     __call__ svds get_cmap ot0 self = (Raise e, s') ->
     animate svds get_cmap (ot0 :: rest) frame_rate self =
     (inl (MethodError e), s')) /\
  (forall hs s',
     __call__ svds get_cmap ot0 self = (Ok hs, s') ->
     frame_rate == 0 ->
     animate svds get_cmap (ot0 :: rest) frame_rate self =
     (inl ZeroDivisionError, s')).
Proof.
  split; [reflexivity|]. split.
  - intros e s' H. unfold animate. cbn [nth_error]. now rewrite H.
  - intros hs s' H Hz. unfold animate. cbn [nth_error]. rewrite H.
    apply Qeq_bool_iff in Hz. now rewrite Hz.
Qed.


End Animating.

(** ** The barycentric projection of a diagonal coupling *)









(** * The further properties on sample inputs *)

Lemma sample_matrix_above_minus_one (i j : nat) :
  (i < shape0 sample_matrix)%nat -> (j < shape1 sample_matrix)%nat ->
  -1 < getitem2 sample_matrix (i, j).
Proof.
  intros Hi Hj. unfold shape0 in Hi. cbn in Hi, Hj.
  destruct i as [|[|[|i]]]; try lia;
    destruct j as [|[|j]]; try lia; reflexivity.
Qed.

(** The three lines of the sample coupling above [0] join the coupled
    points. *)
Lemma mapping_segments_join_points_witness :
  exists edges,
    _mapping (sample_plot true false 0 (7 # 10))
             sample_x sample_y sample_matrix = Ok edges /\
    map segment edges =
    [((0, 0), (2, 2)); ((1, 0), (2, 2)); ((0, 1), (3, 3))].
Proof.
  destruct (mapping_segments_join_points (sample_plot true false 0 (7 # 10))
              sample_x sample_y sample_matrix)
    as (edges & Hm & Hs).
  - repeat constructor.
  - reflexivity.
  - repeat constructor.
  - reflexivity.
  - repeat constructor.
  - reflexivity.
  - reflexivity.
  - left. reflexivity.
  - exists edges. split; [exact Hm|exact Hs].
Defined.

(** With the default threshold [-1] the sample coupling yields six edges. *)
Lemma mapping_all_entries_witness :
  exists edges,
    _mapping (sample_plot true true (-1) (7 # 10))
             sample_x sample_y sample_matrix = Ok edges /\
    length edges = 6%nat.
Proof.
  destruct (mapping_all_entries (sample_plot true true (-1) (7 # 10))
              sample_x sample_y sample_matrix)
    as (_ & edges & Hm & Hl).
  - repeat constructor.
  - reflexivity.
  - repeat constructor.
  - reflexivity.
  - repeat constructor.
  - reflexivity.
  - reflexivity.
  - exact sample_matrix_above_minus_one.
  - right. unfold shape0. cbn. lia.
  - exists edges. split; [exact Hm|exact Hl].
Defined.

(** From threshold [-1] to threshold [0] the sample coupling loses edges. *)
Lemma mapping_threshold_monotone_witness :
  exists edges_lo edges_hi,
    _mapping (sample_plot true false (-1) (7 # 10))
             sample_x sample_y sample_matrix = Ok edges_lo /\
    _mapping (sample_plot true false 0 (7 # 10))
             sample_x sample_y sample_matrix = Ok edges_hi /\
    subseq edges_hi edges_lo.
Proof.
  destruct (mapping_threshold_monotone
              (sample_plot true false (-1) (7 # 10))
              (sample_plot true false 0 (7 # 10))
              sample_x sample_y sample_matrix)
    as (lo & hi & Hlo & Hhi & Hs & _).
  - repeat constructor.
  - reflexivity.
  - repeat constructor.
  - reflexivity.
  - repeat constructor.
  - reflexivity.
  - reflexivity.
  - reflexivity.
  - reflexivity.
  - reflexivity.
  - discriminate.
  - exists lo, hi. split; [exact Hlo|]. split; [exact Hhi|exact Hs].
Defined.

(** On the sample coupling, the entry [1/100] gets no more strength and no
    more alpha than the entry [9/10]. *)
Lemma mapping_monotone_in_coupling_witness :
  exists tuple : nat * nat -> edge,
    _mapping (sample_plot true true (-1) (7 # 10))
             sample_x sample_y sample_matrix =
      Ok (map tuple (selected sample_matrix (-1))) /\
    strength (tuple (1, 0)%nat) <= strength (tuple (0, 0)%nat) /\
    alpha (tuple (1, 0)%nat) <= alpha (tuple (0, 0)%nat).
Proof.
  destruct (mapping_monotone_in_coupling
              (sample_plot true true (-1) (7 # 10))
              sample_x sample_y sample_matrix)
    as (tuple & Hm & Hmono).
  - repeat constructor.
  - reflexivity.
  - repeat constructor.
  - reflexivity.
  - repeat constructor.
  - reflexivity.
  - reflexivity.
  - right. vm_compute. discriminate.
  - discriminate.
  - exists tuple. split; [exact Hm|].
    apply (Hmono (1, 0)%nat (0, 0)%nat). vm_compute. discriminate.
Defined.

(** On the sample coupling with scaling on, some edge carries the whole
    base alpha and some edge is transparent. *)
Lemma mapping_alpha_extremes_witness :
  exists tuple : nat * nat -> edge,
    _mapping (sample_plot true true (-1) (7 # 10))
             sample_x sample_y sample_matrix =
      Ok (map tuple (selected sample_matrix (-1))) /\
    (exists ij, In ij (selected sample_matrix (-1)) /\
                alpha (tuple ij) == 7 # 10) /\
    (exists ij, In ij (selected sample_matrix (-1)) /\
                alpha (tuple ij) == 0).
Proof.
  destruct (mapping_alpha_extremes (sample_plot true true (-1) (7 # 10))
              sample_x sample_y sample_matrix)
    as (tuple & Hm & Hmax & Hmin & _).
  - repeat constructor.
  - reflexivity.
  - repeat constructor.
  - reflexivity.
  - repeat constructor.
  - reflexivity.
  - reflexivity.
  - split; discriminate.
  - reflexivity.
  - exists (9 # 10), 0. split; [simpl; auto|]. split; [simpl; auto|].
    discriminate.
  - exists tuple. split; [exact Hm|]. split; [exact Hmax|exact Hmin].
Defined.

(** A base alpha of [2] gives fully opaque lines. *)
Lemma mapping_base_alpha_cut_witness :
  exists edges,
    _mapping (sample_plot true false 0 2)
             sample_x sample_y sample_matrix = Ok edges /\
    length edges = 3%nat /\
    Forall (fun e => alpha e == 1) edges.
Proof.
  eexists. split; [vm_compute; reflexivity|]. split; [reflexivity|].
  apply (mapping_base_alpha_cut (sample_plot true false 0 2)
           sample_x sample_y sample_matrix).
  - reflexivity.
  - vm_compute. reflexivity.
  - discriminate.
Defined.

(** A first call on the sample transport draws two scatters and three
    lines, and returns their five handles. *)
Lemma call_draws_points_and_lines_witness :
  fst (__call__ sample_svds sample_cmap sample_ot
         (sample_plot true false 0 (7 # 10)))
  = Ok [0; 1; 2; 3; 4]%nat
  /\ _lines called_plot = [2; 3; 4]%nat
  /\ length (artists (ax called_plot)) = 5%nat.
Proof.
  unfold called_plot.
  rewrite (call_draws_points_and_lines sample_svds sample_cmap
             (sample_plot true false 0 (7 # 10)) sample_ot
             sample_x sample_y
             (map (fun w => w * 200 * Q_of_nat 3) sample_a)
             (map (fun w => w * 200 * Q_of_nat 2) sample_b)
             (map (edge_of sample_x sample_y sample_matrix (7 # 10))
                  [(0, 0); (1, 0); (2, 1)]%nat)).
  - split; [reflexivity|]. split; reflexivity.
  - reflexivity.
  - reflexivity.
  - reflexivity.
  - reflexivity.
  - vm_compute. reflexivity.
Defined.

(** An update of the called plot with the dense coupling keeps the three
    line handles, adds three and returns eight handles. *)
Lemma update_line_handles_witness :
  exists s',
    update sample_svds sample_cmap dense_ot called_plot =
    (Ok ([0; 1]%nat ++ _lines s'), s') /\
    _lines s' = [2; 3; 4; 5; 6; 7]%nat /\
    length (artists (ax s')) = 8%nat.
Proof.
  destruct (update_line_handles sample_svds sample_cmap called_plot dense_ot
              sample_x sample_y
              (map (fun w => w * 200 * Q_of_nat 3) sample_a)
              (map (fun w => w * 200 * Q_of_nat 2) sample_b)
              0%nat 1%nat
              (map (edge_of sample_x sample_y dense_matrix (7 # 10))
                   (index_pairs 3 2)))
    as (s' & Hupd & Hl & _ & Hn & _).
  - reflexivity.
  - reflexivity.
  - reflexivity.
  - reflexivity.
  - vm_compute. reflexivity.
  - exists s'. split; [exact Hupd|]. split; [exact Hl|exact Hn].
Defined.

(** A bare cost matrix is refused and the plot is untouched. *)
Lemma scatter_error_leaves_plot_witness :
  __call__ sample_svds sample_cmap cost_ot drawn_plot
  = (Raise geometry_kind_error, drawn_plot)
  /\ update sample_svds sample_cmap cost_ot drawn_plot
     = (Raise geometry_kind_error, drawn_plot).
Proof.
  apply (scatter_error_leaves_plot sample_svds sample_cmap drawn_plot
           cost_ot geometry_kind_error).
  reflexivity.
Defined.

(** An update of a plot that was never called. *)
Lemma update_before_call_witness :
  exists msg,
    update sample_svds sample_cmap sample_ot
           (sample_plot true false 0 (7 # 10))
    = (Raise (AttributeError msg), sample_plot true false 0 (7 # 10)).
Proof.
  apply (update_before_call sample_svds sample_cmap
           (sample_plot true false 0 (7 # 10)) sample_ot
           sample_x sample_y
           (map (fun w => w * 200 * Q_of_nat 3) sample_a)
           (map (fun w => w * 200 * Q_of_nat 2) sample_b)).
  - reflexivity.
  - reflexivity.
Defined.

(** Plane source points with spatial target points: one scatter is drawn,
    then the call raises. *)
Lemma call_mixed_dimensions_witness :
  exists msg s',
    __call__ sample_svds sample_cmap mixed_ot
             (sample_plot true false 0 (7 # 10))
    = (Raise (TypeError msg), s') /\
    length (artists (ax s')) = 1%nat /\
    _points_x s' = Some 0%nat /\ _points_y s' = None.
Proof.
  destruct (call_mixed_dimensions sample_svds sample_cmap
              (sample_plot true false 0 (7 # 10)) mixed_ot
              sample_x spatial_y)
    as (msg & H).
  - reflexivity.
  - reflexivity.
  - discriminate.
  - exists msg. eexists. split; [exact H|].
    split; [reflexivity|]. split; reflexivity.
Defined.

Lemma drawn_plot_ok : plot_ok drawn_plot.
Proof.
  split; [constructor|]. split; [constructor|].
  split; intros h E; injection E as <-; reflexivity.
Qed.

(** The drawn plot stays sound through a call and through an update. *)
Lemma methods_keep_handles_sound_witness :
  plot_ok (snd (__call__ sample_svds sample_cmap sample_ot drawn_plot)) /\
  plot_ok (snd (update sample_svds sample_cmap sample_ot drawn_plot)).
Proof.
  apply (methods_keep_handles_sound sample_svds sample_cmap drawn_plot
           sample_ot).
  exact drawn_plot_ok.
Defined.

(** A call on the sample transport followed by an update with the dense
    coupling: the update returns the two scatter handles and six lines. *)
Lemma call_then_update_witness :
  exists ls s2,
    update sample_svds sample_cmap dense_ot called_plot =
    (Ok ([0; 1]%nat ++ ls), s2) /\
    length ls = 6%nat.
Proof.
  destruct (call_then_update sample_svds sample_cmap
              (sample_plot true false 0 (7 # 10)) called_plot
              sample_ot dense_ot [0; 1; 2; 3; 4]%nat
              sample_x sample_y
              (map (fun w => w * 200 * Q_of_nat 3) sample_a)
              (map (fun w => w * 200 * Q_of_nat 2) sample_b)
              (map (edge_of sample_x sample_y dense_matrix (7 # 10))
                   (index_pairs 3 2)))
    as (ls & s2 & Hupd & _ & Hlen & _).
  - reflexivity.
  - vm_compute. reflexivity.
  - reflexivity.
  - vm_compute. reflexivity.
  - exists ls, s2. split; [exact Hupd|exact Hlen].
Defined.

(** Three and four dimensions do not concatenate; and a concatenation the
    SVD routine does not converge on. *)
Lemma bidimensional_errors_witness :
  (exists msg,
     bidimensional sample_svds spatial_x hyper_y = Raise (TypeError msg))
  /\ bidimensional sample_svds spatial_x spatial_x
     = Raise (ArpackError "ARPACK error -1: No convergence").
Proof.
  split.
  - apply (bidimensional_errors sample_svds spatial_x hyper_y).
    + cbn. lia.
    + discriminate.
  - apply (bidimensional_errors sample_svds spatial_x spatial_x).
    + cbn. lia.
    + reflexivity.
    + reflexivity.
Defined.

(** No source weight: nothing is drawn. *)
Lemma barycenters_empty_weights_witness :
  _barycenters empty_axes sample_y [] sample_b sample_matrix 200
  = (Raise zero_size_min, empty_axes).
Proof.
  apply (barycenters_empty_weights empty_axes sample_y [] sample_b
           sample_matrix 200).
  left. reflexivity.
Defined.

(** A matrix without rows and no [a]. *)
Lemma projections_array_errors_witness :
  barycentric_projections (ArrayArg sample_y) None (Some sample_b)
    (Some (mk_ndarray 2 [])) (Some empty_axes) None
  = (Raise zero_size_min, empty_axes).
Proof.
  apply (projections_array_errors sample_y (Some sample_a) (Some sample_b)
           (mk_ndarray 2 []) empty_axes None).
  reflexivity.
Defined.

(** Weights and a matrix passed next to a solver output are not used. *)
Lemma projections_ignore_arguments_witness :
  barycentric_projections (TransportArg sample_ot) (Some [1]) (Some [1])
    (Some dense_matrix) (Some empty_axes) (Some 200)
  = _barycenters empty_axes sample_y sample_a sample_b sample_matrix 200
  /\ barycentric_projections (GWArg sample_gw) (Some [1]) (Some [1])
       (Some dense_matrix) (Some empty_axes) (Some 200)
     = _barycenters empty_axes sample_y sample_a sample_b sample_matrix 200.
Proof.
  destruct (projections_ignore_arguments sample_ot sample_gw
              sample_x sample_y (Some [1]) (Some [1]) (Some dense_matrix)
              empty_axes 200)
    as [Ht Hg].
  split; [apply Ht; reflexivity|apply Hg; reflexivity].
Defined.



(** An empty sequence, a refused first transport, a zero frame rate. *)
Lemma animate_failures_witness :
  animate sample_svds sample_cmap [] 10 (sample_plot true false 0 (7 # 10))
  = (inl IndexError, sample_plot true false 0 (7 # 10))
  /\ animate sample_svds sample_cmap [cost_ot; sample_ot] 10
       (sample_plot true false 0 (7 # 10))
     = (inl (MethodError geometry_kind_error),
        sample_plot true false 0 (7 # 10))
  /\ animate sample_svds sample_cmap [sample_ot; dense_ot] 0
       (sample_plot true false 0 (7 # 10))
     = (inl ZeroDivisionError, called_plot).
Proof.
  destruct (animate_failures sample_svds sample_cmap
              (sample_plot true false 0 (7 # 10)) sample_ot [] 10)
    as (Hempty & _ & _).
  destruct (animate_failures sample_svds sample_cmap
              (sample_plot true false 0 (7 # 10)) cost_ot [sample_ot] 10)
    as (_ & Hraise & _).
  destruct (animate_failures sample_svds sample_cmap
              (sample_plot true false 0 (7 # 10)) sample_ot [dense_ot] 0)
    as (_ & _ & Hzero).
  split; [exact Hempty|]. split.
  - apply Hraise. reflexivity.
  - apply (Hzero [0; 1; 2; 3; 4]%nat called_plot).
    + vm_compute. reflexivity.
    + reflexivity.
Defined.




(** * The two claims the rationals could not settle *)

(** ** C6: alpha after clipping, on floats *)







(** ** C10: plots without lines *)

Lemma scatter_offsets_rows (x : ndarray) :
  well_shaped x -> shape1 x = 2%nat -> scatter_offsets x = rows x.
Proof.
  intros Hw H2. unfold well_shaped in Hw. rewrite H2 in Hw.
  unfold scatter_offsets, column.
  induction (rows x) as [|r rs IH]; [reflexivity|].
  apply Forall_cons_iff in Hw. destruct Hw as [Hr Hrs].
  destruct r as [|p [|q [|z r]]]; try discriminate Hr.
  cbn [map combine fst snd]. rewrite (IH Hrs). reflexivity.
Qed.

Lemma set_offsets_scatter (x : ndarray) (p : option artist)
    (o : list (list Q)) (s : list Q) (e m l : string) :
  p = Some (PathCollection o s e m l) ->
  option_map (set_offsets x) p = Some (PathCollection (rows x) s e m l).
Proof. intros ->. reflexivity. Qed.

Section NoLines.

Variable svds : ndarray -> nat -> result (ndarray * list Q * ndarray).
Variable get_cmap : string -> Q -> rgba.

(** C10, as amended.  On a plot built with [show_lines=False], for every
    transport on which [_scatter] returns.  When the point sets have two
    columns, [__call__] appends the two scatters to the axes (their offsets
    are the rows of [x] and of [y]), sets the legend, records the two
    handles and returns the empty list.  On a plot whose two scatters
    exist, [update] returns the empty list after replacing the offsets of
    the scatter [_points_x] by the rows of [x] and those of the scatter
    [_points_y] by the rows of [y]; their other attributes, every other
    artist, the legend and the object are unchanged. *)
Theorem no_lines_returns_empty (self : Plot) (ot : Transport)
    (x y : ndarray) (sx sy : list Q) :
  _show_lines self = false ->
  _scatter svds self ot = Ok (x, y, sx, sy) ->
  (shape1 x = 2%nat -> shape1 y = 2%nat ->
   let n := length (artists (ax self)) in
   let drawn :=
     mk_Axes (artists (ax self)
              ++ [PathCollection (scatter_offsets x) sx "k" "o" "x";
                  PathCollection (scatter_offsets y) sy "k" "X" "y"])
             (Some 15) in
   __call__ svds get_cmap ot self =
   (Ok [], set_ax drawn
             (set_points_y (Some (S n)) (set_points_x (Some n) self))) /\
   (well_shaped x -> scatter_offsets x = rows x) /\
   (well_shaped y -> scatter_offsets y = rows y))
  /\
  (forall px py,
     _points_x self = Some px -> _points_y self = Some py ->
     exists axes',
       update svds get_cmap ot self = (Ok [], set_ax axes' self) /\
       legend_fontsize axes' = legend_fontsize (ax self) /\
       length (artists axes') = length (artists (ax self)) /\
       (forall o s e m l,
          nth_error (artists (ax self)) py = Some (PathCollection o s e m l) ->
          nth_error (artists axes') py
          = Some (PathCollection (rows y) s e m l)) /\
       (forall o s e m l,
          px <> py ->
          nth_error (artists (ax self)) px = Some (PathCollection o s e m l) ->
          nth_error (artists axes') px
          = Some (PathCollection (rows x) s e m l)) /\
       (forall h, h <> px -> h <> py ->
          nth_error (artists axes') h = nth_error (artists (ax self)) h)).
Proof.
  intros Hshow Hsc. split.
  - intros Hx Hy n drawn. split; [|split].
    + unfold __call__.
      rewrite (mbind_lift _ _ self _ Hsc). cbv beta iota.
      rewrite (mbind_ok _ _ _ _ _
                 (self_scatter_two_columns x sx "o" "x" self Hx)).
      rewrite mbind_modify.
      match goal with |- mbind _ _ ?s = _ =>
        rewrite (mbind_ok _ _ _ _ _
                   (self_scatter_two_columns y sy "X" "y" s Hy))
      end.
      rewrite !mbind_modify, mbind_gets.
      match goal with |- (if negb (_show_lines ?s) then _ else _) ?s = _ =>
        change (_show_lines s) with (_show_lines self); rewrite Hshow
      end.
      cbn [negb]. unfold mret. f_equal.
      apply plot_ext; plot_fields; try reflexivity.
      all: subst drawn n; rewrite ?length_app, <- ?app_assoc;
        cbn [length app]; rewrite ?Nat.add_1_r; reflexivity.
    + intros Hw. now apply scatter_offsets_rows.
    + intros Hw. now apply scatter_offsets_rows.
  - intros px py Hpx Hpy.
    exists (update_artist (update_artist (ax self) px (set_offsets x))
                          py (set_offsets y)).
    split; [|split; [|split; [|split; [|split]]]].
    + unfold update.
      rewrite (mbind_lift _ _ self _ Hsc). cbv beta iota.
      rewrite (mbind_ok _ _ _ _ _
                 (points_set_offsets_some _points_x x self px Hpx)).
      match goal with |- mbind _ _ ?s = _ =>
        rewrite (mbind_ok _ _ _ _ _
                   (points_set_offsets_some _points_y y s py Hpy))
      end.
      rewrite mbind_gets.
      match goal with |- (if negb (_show_lines ?s) then _ else _) ?s = _ =>
        change (_show_lines s) with (_show_lines self); rewrite Hshow
      end.
      cbn [negb]. unfold mret.
      f_equal; try (apply plot_ext; plot_fields; reflexivity).
    + reflexivity.
    + unfold update_artist. cbn [artists].
      now rewrite !length_update_nth.
    + intros o s e m l Hat. unfold update_artist. cbn [artists].
      rewrite !nth_error_update_nth, Nat.eqb_refl.
      destruct (Nat.eqb px py).
      * apply (set_offsets_scatter y _ (rows x) s e m l).
        now apply (set_offsets_scatter x _ o s e m l).
      * now apply (set_offsets_scatter y _ o s e m l).
    + intros o s e m l Hne Hat. unfold update_artist. cbn [artists].
      rewrite !nth_error_update_nth, Nat.eqb_refl.
      replace (Nat.eqb py px) with false
        by (symmetry; apply Nat.eqb_neq; congruence).
      now apply (set_offsets_scatter x _ o s e m l).
    + intros h Hx Hy. unfold update_artist. cbn [artists].
      rewrite !nth_error_update_nth.
      replace (Nat.eqb py h) with false
        by (symmetry; apply Nat.eqb_neq; congruence).
      replace (Nat.eqb px h) with false
        by (symmetry; apply Nat.eqb_neq; congruence).
      reflexivity.
Qed.

End NoLines.

(** Without lines, a first call on the sample transport draws the two
    scatters of the sample points and returns no handle; an update of the
    drawn plot moves its two scatters onto the sample points and returns no
    handle. *)
Lemma no_lines_returns_empty_witness :
  fst (__call__ sample_svds sample_cmap sample_ot
         (sample_plot false false (-1) (7 # 10))) = Ok []
  /\ map (fun p => match p with
                   | PathCollection o _ _ _ _ => o
                   | Line2D _ _ _ _ _ _ => []
                   end)
         (artists (ax (snd (__call__ sample_svds sample_cmap sample_ot
                              (sample_plot false false (-1) (7 # 10))))))
     = [rows sample_x; rows sample_y]
  /\ exists axes',
       update sample_svds sample_cmap sample_ot drawn_plot
       = (Ok [], set_ax axes' drawn_plot) /\
       nth_error (artists axes') 0
       = Some (PathCollection (rows sample_x) [200] "k" "o" "x") /\
       nth_error (artists axes') 1
       = Some (PathCollection (rows sample_y) [200] "k" "X" "y").
Proof.
  destruct (no_lines_returns_empty sample_svds sample_cmap
              (sample_plot false false (-1) (7 # 10)) sample_ot
              sample_x sample_y
              (map (fun w => w * 200 * Q_of_nat 3) sample_a)
              (map (fun w => w * 200 * Q_of_nat 2) sample_b))
    as [Hcall _]; [reflexivity|reflexivity|].
  destruct (Hcall eq_refl eq_refl) as (Hrun & _ & _).
  destruct (no_lines_returns_empty sample_svds sample_cmap
              drawn_plot sample_ot sample_x sample_y
              (map (fun w => w * 200 * Q_of_nat 3) sample_a)
              (map (fun w => w * 200 * Q_of_nat 2) sample_b))
    as [_ Hupd]; [reflexivity|reflexivity|].
  destruct (Hupd 0%nat 1%nat eq_refl eq_refl)
    as (axes' & Hu & _ & _ & Hy & Hx & _).
  rewrite Hrun.
  split; [reflexivity|]. split; [reflexivity|].
  exists axes'. split; [exact Hu|]. split.
  - apply (Hx [[0; 0]]). discriminate. reflexivity.
  - apply (Hy [[0; 0]]). reflexivity.
Defined.

(** C10 as stated fails.  On a transport whose geometry is a bare cost
    matrix, with [show_lines=False], neither method returns the empty
    list: both raise the geometry error.  Nor does [update] on a plot
    that was never drawn: it raises [AttributeError]. *)
Lemma no_lines_may_raise :
  __call__ sample_svds sample_cmap cost_ot
           (sample_plot false false (-1) (7 # 10))
  = (Raise geometry_kind_error, sample_plot false false (-1) (7 # 10))
  /\ update sample_svds sample_cmap cost_ot drawn_plot
     = (Raise geometry_kind_error, drawn_plot)
  /\ fst (update sample_svds sample_cmap sample_ot
            (sample_plot false false (-1) (7 # 10)))
     = Raise (AttributeError
                "'NoneType' object has no attribute 'set_offsets'")
  /\ fst (__call__ sample_svds sample_cmap cost_ot
            (sample_plot false false (-1) (7 # 10))) <> Ok []
  /\ fst (update sample_svds sample_cmap cost_ot drawn_plot) <> Ok [].
Proof.
  split; [reflexivity|]. split; [reflexivity|]. split; [reflexivity|].
  split; discriminate.
Qed.
